(** * fatbACPC: affine composition, decomposition and axis bounds

    A shallow embedding of the numerical core of the three scripts

      - [contrib/axisAnglesToRotMatToAffine.py]  ([compose], [concat],
        [axisAnglesToRotMat], [rotMatToAffine]),
      - [tools/python/decompose.py]              ([decompose],
        [rotMatToAxisAngles]),
      - [tools/python/axisBounds.py]             ([_fillPoints],
        [transform], [axisBounds]).

    Numbers.  The scripts compute with numpy double-precision numbers.
    Here every such float is a real number of the Standard Library and
    every operation on them ([+], [*], [/], [np.sqrt], [np.cos], [np.sin],
    [np.arctan2], [min], [max], comparisons) is the exact operation on
    reals: the rounding of double-precision operations, overflow, NaN and
    the sign of a zero are outside the model.  The one place where the
    scripts narrow the precision is modelled: [axisBounds] stores its corner
    points in an array of [dtype=np.float32], and [float32] below rounds a
    real to the nearest single-precision number, ties to even.

    Arrays.  The docstrings fix the shapes: [(3,)] vectors, [(3, 3)]
    rotation matrices and [(4, 4)] affines.  They are records of rows, so
    that [np.array([M1, M2, M3])] is [Mat3 M1 M2 M3] and [xform[0]] is a
    projection.  The point arrays handed to [transform] have a shape that
    is only known at run time and are lists. *)

From Stdlib Require Import Reals Lra Lia ZArith List String Ascii Bool.
From Stdlib Require Import Psatz RNsatz.
Import ListNotations.

Local Open Scope R_scope.

(** ** Vectors and matrices of fixed shape *)

Record vec3 : Type := Vec3 { v3_0 : R; v3_1 : R; v3_2 : R }.
Record vec4 : Type := Vec4 { v4_0 : R; v4_1 : R; v4_2 : R; v4_3 : R }.
Record mat3 : Type := Mat3 { m3_0 : vec3; m3_1 : vec3; m3_2 : vec3 }.
Record mat4 : Type :=
  Mat4 { m4_0 : vec4; m4_1 : vec4; m4_2 : vec4; m4_3 : vec4 }.

(** [v[i]] and [m[i, j]] for literal indices.  The scripts only index
    these arrays with constants inside the shape; an index outside it (an
    [IndexError] in numpy) reads as [0] here and is never used. *)
Definition get3 (v : vec3) (i : nat) : R :=
  match i with 0%nat => v3_0 v | 1%nat => v3_1 v | 2%nat => v3_2 v | _ => 0 end.

Definition get4 (v : vec4) (i : nat) : R :=
  match i with
  | 0%nat => v4_0 v | 1%nat => v4_1 v | 2%nat => v4_2 v | 3%nat => v4_3 v
  | _ => 0
  end.

Definition row3 (m : mat3) (i : nat) : vec3 :=
  match i with 0%nat => m3_0 m | 1%nat => m3_1 m | _ => m3_2 m end.

Definition row4 (m : mat4) (i : nat) : vec4 :=
  match i with
  | 0%nat => m4_0 m | 1%nat => m4_1 m | 2%nat => m4_2 m | _ => m4_3 m
  end.

Definition at3 (m : mat3) (i j : nat) : R := get3 (row3 m i) j.
Definition at4 (m : mat4) (i j : nat) : R := get4 (row4 m i) j.

(** [v[i] = x] and [m[i, j] = x]. *)
Definition set4 (v : vec4) (i : nat) (x : R) : vec4 :=
  match i with
  | 0%nat => Vec4 x (v4_1 v) (v4_2 v) (v4_3 v)
  | 1%nat => Vec4 (v4_0 v) x (v4_2 v) (v4_3 v)
  | 2%nat => Vec4 (v4_0 v) (v4_1 v) x (v4_3 v)
  | 3%nat => Vec4 (v4_0 v) (v4_1 v) (v4_2 v) x
  | _ => v
  end.

Definition set3 (v : vec3) (i : nat) (x : R) : vec3 :=
  match i with
  | 0%nat => Vec3 x (v3_1 v) (v3_2 v)
  | 1%nat => Vec3 (v3_0 v) x (v3_2 v)
  | 2%nat => Vec3 (v3_0 v) (v3_1 v) x
  | _ => v
  end.

Definition setrow3 (m : mat3) (i : nat) (v : vec3) : mat3 :=
  match i with
  | 0%nat => Mat3 v (m3_1 m) (m3_2 m)
  | 1%nat => Mat3 (m3_0 m) v (m3_2 m)
  | 2%nat => Mat3 (m3_0 m) (m3_1 m) v
  | _ => m
  end.

Definition setrow4 (m : mat4) (i : nat) (v : vec4) : mat4 :=
  match i with
  | 0%nat => Mat4 v (m4_1 m) (m4_2 m) (m4_3 m)
  | 1%nat => Mat4 (m4_0 m) v (m4_2 m) (m4_3 m)
  | 2%nat => Mat4 (m4_0 m) (m4_1 m) v (m4_3 m)
  | 3%nat => Mat4 (m4_0 m) (m4_1 m) (m4_2 m) v
  | _ => m
  end.

Definition setat3 (m : mat3) (i j : nat) (x : R) : mat3 :=
  setrow3 m i (set3 (row3 m i) j x).

Definition setat4 (m : mat4) (i j : nat) (x : R) : mat4 :=
  setrow4 m i (set4 (row4 m i) j x).

(** [np.eye(3)] and [np.eye(4)]. *)
Definition eye3 : mat3 := Mat3 (Vec3 1 0 0) (Vec3 0 1 0) (Vec3 0 0 1).
Definition eye4 : mat4 :=
  Mat4 (Vec4 1 0 0 0) (Vec4 0 1 0 0) (Vec4 0 0 1 0) (Vec4 0 0 0 1).

(** [m.T]. *)
Definition col3 (m : mat3) (j : nat) : vec3 :=
  Vec3 (at3 m 0 j) (at3 m 1 j) (at3 m 2 j).

Definition col4 (m : mat4) (j : nat) : vec4 :=
  Vec4 (at4 m 0 j) (at4 m 1 j) (at4 m 2 j) (at4 m 3 j).

Definition transpose3 (m : mat3) : mat3 :=
  Mat3 (col3 m 0) (col3 m 1) (col3 m 2).

Definition transpose4 (m : mat4) : mat4 :=
  Mat4 (col4 m 0) (col4 m 1) (col4 m 2) (col4 m 3).

(** [np.dot] on two vectors, and the vector arithmetic of numpy. *)
Definition dot3 (u v : vec3) : R :=
  v3_0 u * v3_0 v + v3_1 u * v3_1 v + v3_2 u * v3_2 v.

Definition dot4 (u v : vec4) : R :=
  v4_0 u * v4_0 v + v4_1 u * v4_1 v + v4_2 u * v4_2 v + v4_3 u * v4_3 v.

Definition sub3 (u v : vec3) : vec3 :=
  Vec3 (v3_0 u - v3_0 v) (v3_1 u - v3_1 v) (v3_2 u - v3_2 v).
Definition scale3 (k : R) (v : vec3) : vec3 :=
  Vec3 (k * v3_0 v) (k * v3_1 v) (k * v3_2 v).
Definition div3 (v : vec3) (k : R) : vec3 :=
  Vec3 (v3_0 v / k) (v3_1 v / k) (v3_2 v / k).
Definition neg3 (v : vec3) : vec3 := Vec3 (- v3_0 v) (- v3_1 v) (- v3_2 v).

(** [np.dot] on two matrices: rows of the left against columns of the
    right. *)
Definition rowmul3 (u : vec3) (b : mat3) : vec3 :=
  Vec3 (dot3 u (col3 b 0)) (dot3 u (col3 b 1)) (dot3 u (col3 b 2)).

Definition rowmul4 (u : vec4) (b : mat4) : vec4 :=
  Vec4 (dot4 u (col4 b 0)) (dot4 u (col4 b 1)) (dot4 u (col4 b 2))
     (dot4 u (col4 b 3)).

Definition matmul3 (a b : mat3) : mat3 :=
  Mat3 (rowmul3 (m3_0 a) b) (rowmul3 (m3_1 a) b) (rowmul3 (m3_2 a) b).

Definition matmul4 (a b : mat4) : mat4 :=
  Mat4 (rowmul4 (m4_0 a) b) (rowmul4 (m4_1 a) b) (rowmul4 (m4_2 a) b)
     (rowmul4 (m4_3 a) b).

(** [np.dot] is one name for the product at every shape. *)
Class NpDot (M : Type) : Type := np_dot : M -> M -> M.
#[export] Instance NpDot_mat3 : NpDot mat3 := matmul3.
#[export] Instance NpDot_mat4 : NpDot mat4 := matmul4.

(** [xform[:3, :3]] and [xform[:3, 3]]. *)
Definition head3 (v : vec4) : vec3 := Vec3 (v4_0 v) (v4_1 v) (v4_2 v).

Definition linear_part (m : mat4) : mat3 :=
  Mat3 (head3 (m4_0 m)) (head3 (m4_1 m)) (head3 (m4_2 m)).

Definition translation_part (m : mat4) : vec3 :=
  Vec3 (v4_3 (m4_0 m)) (v4_3 (m4_1 m)) (v4_3 (m4_2 m)).

(** [m[:3, :3] = r]. *)
Definition set_linear_part (m : mat4) (r : mat3) : mat4 :=
  let put (v : vec4) (u : vec3) := Vec4 (v3_0 u) (v3_1 u) (v3_2 u) (v4_3 v) in
  Mat4 (put (m4_0 m) (m3_0 r)) (put (m4_1 m) (m3_1 r)) (put (m4_2 m) (m3_2 r))
       (m4_3 m).

(** [numpy.linalg.det] of a [(3, 3)] matrix. *)
Definition det3 (m : mat3) : R :=
  at3 m 0 0 * (at3 m 1 1 * at3 m 2 2 - at3 m 1 2 * at3 m 2 1)
  - at3 m 0 1 * (at3 m 1 0 * at3 m 2 2 - at3 m 1 2 * at3 m 2 0)
  + at3 m 0 2 * (at3 m 1 0 * at3 m 2 1 - at3 m 1 1 * at3 m 2 0).

(** ** numpy scalar functions *)

(** [np.isclose(a, b)] with its default tolerances [rtol = 1e-05] and
    [atol = 1e-08]: [|a - b| <= atol + rtol * |b|]. *)
Definition isclose (a b : R) : bool :=
  if Rle_dec (Rabs (a - b)) (1e-8 + 1e-5 * Rabs b) then true else false.

(** [np.arctan2(y, x)]: the angle in [(-pi, pi]] of the point [(x, y)],
    with [arctan2 0 0 = 0].  numpy tells [-0.0] from [0.0]:
    [np.arctan2(-0.0, x)] is [-pi] for [x < 0], and [np.arctan2(0.0, -0.0)]
    is [pi].  The reals have one zero, and this definition takes the values
    numpy gives at [0.0]: [arctan2 0 x = PI] for [x < 0]. *)
Definition arctan2 (y x : R) : R :=
  if Rlt_dec 0 x then atan (y / x)
  else if Rlt_dec x 0 then
    if Rle_dec 0 y then atan (y / x) + PI else atan (y / x) - PI
  else if Rlt_dec 0 y then PI / 2
  else if Rlt_dec y 0 then - (PI / 2)
  else 0.

(** [np.float32(x)], the value an array of [dtype=np.float32] holds after
    [x] is assigned to one of its entries: the nearest number [n * 2 ^ e]
    with an integer [|n| <= 2 ^ 24] and the exponent [e >= -149] of the
    binade of [x], ties to the even [n].  From [2 ^ 128] on numpy stores
    [inf]; such values are outside the model, which goes on with the
    exponent [104] of the last binade. *)

(** The nearest integer, ties to the even one. *)
Definition round_half_even (m : R) : Z :=
  let n := Int_part m in
  let d := m - IZR n in
  if Rlt_dec d (/ 2) then n
  else if Rlt_dec (/ 2) d then (n + 1)%Z
  else if Z.even n then n else (n + 1)%Z.

(** The exponent of the last bit of the single-precision numbers around
    [x >= 0]: the least [e >= -149] with [x < 2 ^ (e + 24)], searched
    upwards from [e]. *)
Fixpoint float32_exponent_from (fuel : nat) (e : Z) (x : R) : Z :=
  match fuel with
  | O => e
  | S fuel' =>
      if Rlt_dec x (powerRZ 2 (e + 24)) then e
      else float32_exponent_from fuel' (e + 1) x
  end.

Definition float32_exponent (x : R) : Z :=
  float32_exponent_from 253 (-149) x.

Definition float32_abs (x : R) : R :=
  let e := float32_exponent x in
  IZR (round_half_even (x / powerRZ 2 e)) * powerRZ 2 e.

Definition float32 (x : R) : R :=
  if Rlt_dec x 0 then - float32_abs (- x) else float32_abs x.

(** The [rotations] argument of [compose] and the third result of
    [decompose]: three axis angles (an array of shape [(3,)]) or a rotation
    matrix (shape [(3, 3)]). *)
Inductive rotation : Type :=
| AxisAngles (angles : vec3)
| RotMat (m : mat3).

(** ** contrib/axisAnglesToRotMatToAffine.py *)

Module AffineCompose.

(** [concat] of its argument list [xforms]: the product of the matrices,
    from the left.  The first matrix is an argument of its own
    ([xforms[0]] fails on an empty argument list). *)
Definition concat {M : Type} `{NpDot M} (first : M) (rest : list M) : M :=
  fold_left np_dot rest first.

Definition axisAnglesToRotMat (xrot yrot zrot : R) : mat3 :=
  let xmat := eye3 in
  let ymat := eye3 in
  let zmat := eye3 in
  let xmat := setat3 xmat 1 1 (cos xrot) in
  let xmat := setat3 xmat 1 2 (- sin xrot) in
  let xmat := setat3 xmat 2 1 (sin xrot) in
  let xmat := setat3 xmat 2 2 (cos xrot) in
  let ymat := setat3 ymat 0 0 (cos yrot) in
  let ymat := setat3 ymat 0 2 (sin yrot) in
  let ymat := setat3 ymat 2 0 (- sin yrot) in
  let ymat := setat3 ymat 2 2 (cos yrot) in
  let zmat := setat3 zmat 0 0 (cos zrot) in
  let zmat := setat3 zmat 0 1 (- sin zrot) in
  let zmat := setat3 zmat 1 0 (sin zrot) in
  let zmat := setat3 zmat 1 1 (cos zrot) in
  concat zmat [ymat; xmat].

Definition compose (scales offsets : vec3) (rotations : rotation)
    (origin : option vec3) : mat4 :=
  let preRotate := eye4 in
  let postRotate := eye4 in
  let rotations :=
    match rotations with
    | AxisAngles a => axisAnglesToRotMat (get3 a 0) (get3 a 1) (get3 a 2)
    | RotMat m => m
    end in
  let '(preRotate, postRotate) :=
    match origin with
    | Some origin =>
        let preRotate := setat4 preRotate 0 3 (- get3 origin 0) in
        let preRotate := setat4 preRotate 1 3 (- get3 origin 1) in
        let preRotate := setat4 preRotate 2 3 (- get3 origin 2) in
        let postRotate := setat4 postRotate 0 3 (get3 origin 0) in
        let postRotate := setat4 postRotate 1 3 (get3 origin 1) in
        let postRotate := setat4 postRotate 2 3 (get3 origin 2) in
        (preRotate, postRotate)
    | None => (preRotate, postRotate)
    end in
  let scale := eye4 in
  let offset := eye4 in
  let rotate := eye4 in
  let scale := setat4 scale 0 0 (get3 scales 0) in
  let scale := setat4 scale 1 1 (get3 scales 1) in
  let scale := setat4 scale 2 2 (get3 scales 2) in
  let offset := setat4 offset 0 3 (get3 offsets 0) in
  let offset := setat4 offset 1 3 (get3 offsets 1) in
  let offset := setat4 offset 2 3 (get3 offsets 2) in
  let rotate := set_linear_part rotate rotations in
  concat offset [postRotate; rotate; preRotate; scale].

Definition rotMatToAffine (rotmat : mat3) (origin : option vec3) : mat4 :=
  compose (Vec3 1 1 1) (Vec3 0 0 0) (RotMat rotmat) origin.

End AffineCompose.

(** ** tools/python/decompose.py *)

Module Decompose.

Definition rotMatToAxisAngles (rotmat : mat3) : vec3 :=
  let yrot := sqrt (at3 rotmat 0 0 ^ 2 + at3 rotmat 1 0 ^ 2) in
  if isclose yrot 0 then
    let xrot := arctan2 (- at3 rotmat 1 2) (at3 rotmat 1 1) in
    let yrot := arctan2 (- at3 rotmat 2 0) yrot in
    let zrot := 0 in
    Vec3 xrot yrot zrot
  else
    let xrot := arctan2 (at3 rotmat 2 1) (at3 rotmat 2 2) in
    let yrot := arctan2 (- at3 rotmat 2 0) yrot in
    let zrot := arctan2 (at3 rotmat 1 0) (at3 rotmat 0 0) in
    Vec3 xrot yrot zrot.

(** The local variables of [decompose] when it reaches its [return]. *)
Record decompose_locals : Type := Locals {
  l_translations : vec3;
  l_sx : R; l_sy : R; l_sz : R;
  l_sxy : R; l_sxz : R; l_syz : R;
  l_R : mat3;
  l_rotations : rotation
}.

(** The body of [decompose], statement by statement.  [rescale_syz] is the
    right-hand side of the last shear assignment, as a function of the
    values of [sxz], [syz] and [sz] at that point: the script has
    [syz = sxz / sz]. *)
Definition decompose_body (rescale_syz : R -> R -> R -> R)
    (xform : mat4) (angles : bool) : decompose_locals :=
  let xform4 := transpose4 xform in
  let translations := head3 (row4 xform4 3) in
  let xform := linear_part xform4 in
  let M1 := row3 xform 0 in
  let M2 := row3 xform 1 in
  let M3 := row3 xform 2 in
  let sx := sqrt (dot3 M1 M1) in
  let sxy := dot3 M1 M2 in
  let M2 := sub3 M2 (scale3 sxy M1) in
  let sy := sqrt (dot3 M2 M2) in
  let M2 := div3 M2 sy in
  let sxy := sxy / sy in
  let sxz := dot3 M1 M3 in
  let syz := dot3 M2 M3 in
  let M3 := sub3 (sub3 M3 (scale3 sxz M1)) (scale3 syz M2) in
  let sz := sqrt (dot3 M3 M3) in
  let M3 := div3 M3 sz in
  let sxz := sxz / sz in
  let syz := rescale_syz sxz syz sz in
  let R_ := Mat3 M1 M2 M3 in
  let '(R_, sx) :=
    if Rlt_dec (det3 R_) 0
    then (setrow3 R_ 0 (neg3 (row3 R_ 0)), - sx)
    else (R_, sx) in
  let rotations :=
    if angles then AxisAngles (rotMatToAxisAngles (transpose3 R_))
    else RotMat (transpose3 R_) in
  Locals translations sx sy sz sxy sxz syz R_ rotations.

(** [return [sx, sy, sz], translations, rotations]. *)
Definition decompose_return (l : decompose_locals) : vec3 * vec3 * rotation :=
  (Vec3 (l_sx l) (l_sy l) (l_sz l), l_translations l, l_rotations l).

(** [decompose] as the script has it. *)
Definition decompose (xform : mat4) (angles : bool) : vec3 * vec3 * rotation :=
  decompose_return
    (decompose_body (fun sxz _ sz => sxz / sz) xform angles).

(** The variant in which the last shear assignment reads
    [syz = syz / sz]. *)
Definition decompose_syz_fixed (xform : mat4) (angles : bool)
    : vec3 * vec3 * rotation :=
  decompose_return
    (decompose_body (fun _ syz sz => syz / sz) xform angles).

End Decompose.

(** ** tools/python/axisBounds.py *)

Module AxisBounds.

(** The exceptions the functions of this script raise: [ValueError] with
    its message, and the [IndexError] of numpy for an axis outside the
    array. *)
Inductive error : Type :=
| ValueError (msg : string)
| IndexError.

Inductive result (A : Type) : Type :=
| Ok (a : A)
| Raise (e : error).
Arguments Ok {A} a.
Arguments Raise {A} e.

Definition bind {A B : Type} (r : result A) (k : A -> result B) : result B :=
  match r with Ok a => k a | Raise e => Raise e end.

Notation "x <- r ;; k" := (bind r (fun x => k))
  (at level 61, r at next level, right associativity).

Fixpoint mapM {A B : Type} (f : A -> result B) (l : list A)
    : result (list B) :=
  match l with
  | [] => Ok []
  | a :: l' => b <- f a ;; bs <- mapM f l' ;; Ok (b :: bs)
  end.

(** A numpy array of floats of dimension 0, 1 or 2.  A 2-D array carries
    its number of columns ([shape[1]]); each of its rows has that
    length. *)
Inductive ndarray : Type :=
| Scalar (x : R)
| Arr1 (l : list R)
| Arr2 (ncols : nat) (rows : list (list R)).

(** The [axes] argument: [None], one axis, or a sequence of axes. *)
Inductive axes_arg : Type :=
| AxNone
| AxInt (ax : Z)
| AxList (axes : list Z).

(** An index [i] into an axis of length [n]; numpy counts a negative
    index from the end. *)
Definition norm_index (n : nat) (i : Z) : result nat :=
  if ((0 <=? i) && (i <? Z.of_nat n))%Z then Ok (Z.to_nat i)
  else if ((- Z.of_nat n <=? i) && (i <? 0))%Z
       then Ok (Z.to_nat (i + Z.of_nat n))
       else Raise IndexError.

Definition list_of_vec3 (v : vec3) : list R := [v3_0 v; v3_1 v; v3_2 v].

Definition rows_of_mat3 (m : mat3) : list (list R) :=
  [list_of_vec3 (m3_0 m); list_of_vec3 (m3_1 m); list_of_vec3 (m3_2 m)].

(** [newp[:, ax] = p[:, i]] on the rows of [newp] and [p]. *)
Definition assign_column (newp p : list (list R)) (ax i : nat)
    : list (list R) :=
  map (fun rows : list R * list R =>
         let (newrow, prow) := rows in
         firstn ax newrow ++ nth i prow 0 :: skipn (S ax) newrow)
      (combine newp p).

(** [for i, ax in enumerate(axes): newp[:, ax] = p[:, i]], from index
    [i]. *)
Fixpoint fill_loop (axes : list Z) (i : nat) (newp p : list (list R))
    : result (list (list R)) :=
  match axes with
  | [] => Ok newp
  | ax :: axes' =>
      j <- norm_index 3 ax ;;
      fill_loop axes' (S i) (assign_column newp p j i) p
  end.

Definition _fillPoints (p : ndarray) (axes : axes_arg) : result ndarray :=
  let p := match p with Scalar x => Arr1 [x] | _ => p end in
  match axes with
  | AxNone => Ok p
  | _ =>
      let axes :=
        match axes with AxInt ax => [ax] | AxList l => l | AxNone => [] end in
      let '(ncols, rows) :=
        match p with
        | Arr1 l => (1%nat, map (fun x => [x]) l)
        | Arr2 c rows => (c, rows)
        | Scalar x => (1%nat, [[x]])
        end in
      if negb (List.length axes =? ncols)%nat then
        Raise (ValueError
          "Points array shape does not match specified number of axes")
      else
        let newp := map (fun _ => [0; 0; 0]) rows in
        newp <- fill_loop axes 0 newp rows ;;
        Ok (Arr2 3 newp)
  end.

(** [np.dot] on two 1-D arrays. *)
Fixpoint dotl (u v : list R) : R :=
  match u, v with
  | a :: u', b :: v' => a * b + dotl u' v'
  | _, _ => 0
  end.

(** [np.dot(m, p)] for a [(3, 3)] matrix and a 1-D array of length 3. *)
Definition dot_row (m : mat3) (p : list R) : list R :=
  map (fun mrow => dotl mrow p) (rows_of_mat3 m).

(** [t + v] for a row [t] and a vector [v] of the same length. *)
Fixpoint addl (t v : list R) : list R :=
  match t, v with
  | a :: t', b :: v' => (a + b) :: addl t' v'
  | _, _ => []
  end.

Definition shapes_not_aligned : error := ValueError "shapes not aligned".

Definition transform (p : ndarray) (xform : mat4) (axes : axes_arg)
    (vector : bool) : result ndarray :=
  p <- _fillPoints p axes ;;
  let lin := linear_part xform in
  let shift (row : list R) : list R :=
    if vector then row else addl row (list_of_vec3 (translation_part xform)) in
  match p with
  | Scalar _ => Raise shapes_not_aligned
  | Arr1 l =>
      if negb (List.length l =? 3)%nat then Raise shapes_not_aligned
      else Ok (Arr1 (shift (dot_row lin l)))
  | Arr2 c rows =>
      if negb (c =? 3)%nat then Raise shapes_not_aligned
      else
        let t := map (fun row => shift (dot_row lin row)) rows in
        t <- match axes with
             | AxNone => Ok (Arr2 3 t)
             | AxInt ax =>
                 j <- norm_index 3 ax ;;
                 Ok (Arr1 (map (fun row => nth j row 0) t))
             | AxList l =>
                 js <- mapM (norm_index 3) l ;;
                 Ok (Arr2 (List.length l)
                       (map (fun row => map (fun j => nth j row 0) js) t))
             end ;;
        match t with
        | Arr1 [x] => Ok (Scalar x)
        | Arr2 1 [[x]] => Ok (Arr1 [x])
        | _ => Ok t
        end
  end.

(** [str.lower] on the ASCII letters. *)
Definition lower_ascii (c : ascii) : ascii :=
  let n := nat_of_ascii c in
  if ((65 <=? n) && (n <=? 90))%nat then ascii_of_nat (n + 32) else c.

Fixpoint lower (s : string) : string :=
  match s with
  | EmptyString => EmptyString
  | String c s' => String (lower_ascii c) (lower s')
  end.

(** [boundary in names], for the [boundary] argument, which is a string or
    [None]. *)
Definition boundary_in (boundary : option string) (names : list string)
    : bool :=
  match boundary with
  | Some b => existsb (String.eqb b) names
  | None => false
  end.

(** [a.min(axis=0)] and [a.max(axis=0)]: per column, over the rows.
    numpy refuses to reduce over no row at all. *)
Definition reduce_axis0 (op : R -> R -> R) (ncols : nat)
    (rows : list (list R)) : result (list R) :=
  match rows with
  | [] => Raise (ValueError "zero-size array to reduction operation")
  | row :: rest =>
      Ok (map (fun j => fold_left op (map (fun r => nth j r 0) rest)
                          (nth j row 0))
              (seq 0 ncols))
  end.

(** The value [axisBounds] returns: a pair of scalars when one axis was
    asked for by its number, a pair of arrays otherwise. *)
Inductive bounds : Type :=
| ScalarBounds (lo hi : R)
| ArrayBounds (lo hi : list R).

Definition axisBounds (shape : Z * Z * Z) (xform : mat4) (axes : axes_arg)
    (origin : string) (boundary : option string) (offset : R)
    : result bounds :=
  let origin := lower origin in
  let origin := if (origin =? "center")%string then "centre"%string
                else origin in
  if negb ((origin =? "centre")%string || (origin =? "corner")%string) then
    Raise (ValueError ("Invalid origin value: " ++ origin)%string)
  else if negb (boundary_in boundary ["low"; "high"; "both"]%string
                || match boundary with None => true | _ => false end) then
    Raise (ValueError
             ("Invalid boundary value: "
              ++ match boundary with Some b => b | None => "None" end)%string)
  else
    let '(scalar, axes) :=
      match axes with
      | AxNone => (false, [0; 1; 2]%Z)
      | AxInt ax => (true, [ax])
      | AxList l => (false, l)
      end in
    let '(x, y, z) := shape in
    let '(x, y, z) := (IZR x, IZR y, IZR z) in
    let '(x0, y0, z0, x, y, z) :=
      if (origin =? "centre")%string
      then (-0.5, -0.5, -0.5, x - 0.5, y - 0.5, z - 0.5)
      else (0, 0, 0, x, y, z) in
    let '(x0, y0, z0) :=
      if boundary_in boundary ["low"; "both"]%string
      then (x0 + offset, y0 + offset, z0 + offset)
      else (x0, y0, z0) in
    let '(x, y, z) :=
      if boundary_in boundary ["high"; "both"]%string
      then (x - offset, y - offset, z - offset)
      else (x, y, z) in
    (* [points] is an array of [dtype=np.float32]: every assignment
       [points[i, :] = [...]] stores its three values in single precision.
       [transform] then multiplies it with the double-precision [xform],
       which gives double precision. *)
    let points :=
      map (map float32)
        [ [x0; y0; z0]; [x0; y0; z]; [x0; y; z0]; [x0; y; z];
          [x;  y0; z0]; [x;  y0; z]; [x;  y; z0]; [x;  y; z] ] in
    tx <- transform (Arr2 3 points) xform AxNone false ;;
    match tx with
    | Arr2 ncols rows =>
        js <- mapM (norm_index ncols) axes ;;
        let sel := map (fun row => map (fun j => nth j row 0) js) rows in
        lo <- reduce_axis0 Rmin (List.length axes) sel ;;
        hi <- reduce_axis0 Rmax (List.length axes) sel ;;
        if scalar then Ok (ScalarBounds (nth 0 lo 0) (nth 0 hi 0))
        else Ok (ArrayBounds lo hi)
    | _ => Raise IndexError  (* too many indices for array *)
    end.

End AxisBounds.

(** ** [readlines] of tools/python/axisBounds.py and decompose.py *)

Module ReadLines.

(** The characters [str.strip] removes, among the ASCII characters: tab,
    line feed, vertical tab, form feed, carriage return and space, and
    under Python 3 also the four separators [0x1c] to [0x1f]. *)
Definition is_space (py3 : bool) (c : ascii) : bool :=
  let n := nat_of_ascii c in
  ((9 <=? n) && (n <=? 13))%nat || (n =? 32)%nat
  || (py3 && ((28 <=? n) && (n <=? 31))%nat).

Fixpoint lstrip_chars (py3 : bool) (l : list ascii) : list ascii :=
  match l with
  | c :: l' => if is_space py3 c then lstrip_chars py3 l' else l
  | [] => []
  end.

Definition strip_chars (py3 : bool) (l : list ascii) : list ascii :=
  rev (lstrip_chars py3 (rev (lstrip_chars py3 l))).

(** [l.strip()]. *)
Definition strip (py3 : bool) (l : string) : string :=
  string_of_list_ascii (strip_chars py3 (list_ascii_of_string l)).

(** [l.startswith('#')]. *)
Definition startswith_hash (l : string) : bool :=
  match l with
  | String c _ => (c =? "#")%char
  | EmptyString => false
  end.

(** [readlines], from the lines [f.readlines()] returns for a file of
    ASCII text.  [py3] is [six.PY3]; the encoding to ASCII bytes that
    follows under Python 3 leaves such lines as they are.  Files with other
    characters are outside this model. *)
Definition readlines (py3 : bool) (lines : list string) : list string :=
  let lines := map (strip py3) lines in
  let lines := filter (fun l => negb (startswith_hash l)) lines in
  let lines := filter (fun l => negb (l =? "")%string) lines in
  lines.

End ReadLines.

(** ** The computations of the two [main] functions that print angles *)

Module Mains.

Import AffineCompose Decompose.

(** [math.radians] and [math.degrees]. *)
Definition radians (d : R) : R := d * PI / 180.
Definition degrees (r : R) : R := r * 180 / PI.

(** [main] of [axisAnglesToRotMatToAffine.py], from the three whole
    numbers of degrees it has parsed to the matrix it prints. *)
Definition main_affine (xrot yrot zrot : Z) : mat4 :=
  let xrot := radians (IZR xrot) in
  let yrot := radians (IZR yrot) in
  let zrot := radians (IZR zrot) in
  let rotMat := axisAnglesToRotMat xrot yrot zrot in
  let affineMat := rotMatToAffine rotMat None in
  affineMat.

(** [main] of [decompose.py], from the matrix it has read to the three
    numbers it prints: [math.degrees(result[2][i])] for
    [result = decompose(xform=xform)], whose third component is a list of
    angles. *)
Definition main_degrees (xform : mat4) : option vec3 :=
  let result := decompose xform true in
  match snd result with
  | AxisAngles a =>
      Some (Vec3 (degrees (get3 a 0)) (degrees (get3 a 1))
                 (degrees (get3 a 2)))
  | RotMat _ => None
  end.

End Mains.

(** ** Vocabulary of the properties *)

Import AffineCompose Decompose AxisBounds.

(** A rotation matrix: orthonormal columns and determinant [+1]. *)
Definition is_rotation (m : mat3) : Prop :=
  matmul3 (transpose3 m) m = eye3 /\ det3 m = 1.

(** Entry-wise agreement within an absolute tolerance. *)
Definition vec3_close (eps : R) (u v : vec3) : Prop :=
  Rabs (v3_0 u - v3_0 v) <= eps /\ Rabs (v3_1 u - v3_1 v) <= eps /\
  Rabs (v3_2 u - v3_2 v) <= eps.

Definition mat3_close (eps : R) (a b : mat3) : Prop :=
  vec3_close eps (m3_0 a) (m3_0 b) /\ vec3_close eps (m3_1 a) (m3_1 b) /\
  vec3_close eps (m3_2 a) (m3_2 b).

(** [axisAnglesToRotMat] on the triple [rotMatToAxisAngles] returns. *)
Definition reencode (angles : vec3) : mat3 :=
  axisAnglesToRotMat (get3 angles 0) (get3 angles 1) (get3 angles 2).

(** The quantity [rotMatToAxisAngles] tests against zero to detect gimbal
    lock. *)
Definition yLen (rotmat : mat3) : R :=
  sqrt (at3 rotmat 0 0 ^ 2 + at3 rotmat 1 0 ^ 2).

(** The rotation by a quarter turn about the z axis. *)
Definition quarter_turn_z : mat3 :=
  Mat3 (Vec3 0 (-1) 0) (Vec3 1 0 0) (Vec3 0 0 1).

(** A matrix without perspective row. *)
Definition affine_bottom_row (m : mat4) : Prop := row4 m 3 = Vec4 0 0 0 1.

(** Three mutually orthogonal unit vectors. *)
Definition orthonormal_frame (u0 u1 u2 : vec3) : Prop :=
  dot3 u0 u0 = 1 /\ dot3 u1 u1 = 1 /\ dot3 u2 u2 = 1 /\
  dot3 u0 u1 = 0 /\ dot3 u0 u2 = 0 /\ dot3 u1 u2 = 0.

(** The third component of what [decompose] returns, from the matrix
    [R.T] and the [angles] flag. *)
Definition rotation_result (angles : bool) (m : mat3) : rotation :=
  if angles then AxisAngles (rotMatToAxisAngles m) else RotMat m.

(** The matrix [compose] uses for its [rotations] argument. *)
Definition rotation_matrix (rotations : rotation) : mat3 :=
  match rotations with
  | AxisAngles a => axisAnglesToRotMat (get3 a 0) (get3 a 1) (get3 a 2)
  | RotMat m => m
  end.

(** A [rotations] argument that stands for a rotation: any three angles,
    or a matrix that is a rotation matrix. *)
Definition valid_rotation (rotations : rotation) : Prop :=
  match rotations with
  | AxisAngles _ => True
  | RotMat m => is_rotation m
  end.

(** Scales of a reflection: one component negative, the other two
    positive. *)
Definition reflection_scales (s : vec3) : Prop :=
  (get3 s 0 < 0 /\ 0 < get3 s 1 /\ 0 < get3 s 2) \/
  (0 < get3 s 0 /\ get3 s 1 < 0 /\ 0 < get3 s 2) \/
  (0 < get3 s 0 /\ 0 < get3 s 1 /\ get3 s 2 < 0).

(** An affine with a shear between its second and third axes, on which the
    two versions of the last shear assignment of [decompose] differ. *)
Definition sheared_affine : mat4 :=
  Mat4 (Vec4 1 0 1 0) (Vec4 0 1 1 0) (Vec4 0 0 2 0) (Vec4 0 0 0 1).

(** The point [(5,)] of the example is sent through this affine: scale 2
    on every axis, translation [(0, 0, 1)]. *)
Definition scale2_shift_z : mat4 :=
  Mat4 (Vec4 2 0 0 0) (Vec4 0 2 0 0) (Vec4 0 0 2 1) (Vec4 0 0 0 1).

(** The [origin] and [boundary] keywords [axisBounds] accepts. *)
Definition recognised_origin (origin : string) : Prop :=
  lower origin = "centre"%string \/ lower origin = "center"%string \/
  lower origin = "corner"%string.

Definition recognised_boundary (boundary : option string) : Prop :=
  boundary = Some "low"%string \/ boundary = Some "high"%string \/
  boundary = Some "both"%string \/ boundary = None.

Definition is_value_error {A : Type} (r : result A) : Prop :=
  exists msg, r = Raise (ValueError msg).

(** The axes [axisBounds] works on, and whether it returns scalars. *)
Definition requested_axes (axes : axes_arg) : list Z :=
  match axes with
  | AxNone => [0; 1; 2]%Z
  | AxInt ax => [ax]
  | AxList l => l
  end.

Definition scalar_request (axes : axes_arg) : bool :=
  match axes with AxInt _ => true | _ => false end.

Definition axis_in_range (ax : Z) : Prop := (-3 <= ax < 3)%Z.

(** The low and high bounds as lists, one entry per requested axis. *)
Definition bounds_lo (b : bounds) : list R :=
  match b with ScalarBounds lo _ => [lo] | ArrayBounds lo _ => lo end.

Definition bounds_hi (b : bounds) : list R :=
  match b with ScalarBounds _ hi => [hi] | ArrayBounds _ hi => hi end.

(** The eight corners of the box from [(x0, y0, z0)] to [(x, y, z)], in
    the order of the rows of [points]. *)
Definition corner_points (x0 y0 z0 x y z : R) : list (list R) :=
  [ [x0; y0; z0]; [x0; y0; z]; [x0; y; z0]; [x0; y; z];
    [x;  y0; z0]; [x;  y0; z]; [x;  y; z0]; [x;  y; z] ].

(** The coordinates of the low and of the high corner [axisBounds] starts
    from, along an axis with [n] voxels, as [points] holds them. *)
Definition low_coord (centre adjust : bool) (offset : R) : R :=
  let x0 := if centre then -0.5 else 0 in
  float32 (if adjust then x0 + offset else x0).

Definition high_coord (centre adjust : bool) (offset : R) (n : Z) : R :=
  let x := if centre then IZR n - 0.5 else IZR n in
  float32 (if adjust then x - offset else x).

(** A row of points sent through the affine. *)
Definition world_row (xform : mat4) (p : list R) : list R :=
  addl (dot_row (linear_part xform) p) (list_of_vec3 (translation_part xform)).

(** The reduction of column [j] of an array with at least one row. *)
Definition column_reduce (op : R -> R -> R) (rows : list (list R)) (j : nat)
    : R :=
  match rows with
  | [] => 0
  | row :: rest => fold_left op (map (fun r => nth j r 0) rest) (nth j row 0)
  end.

(** [origin == 'centre'] after [axisBounds] has normalised [origin]. *)
Definition centre_origin (origin : string) : bool :=
  ((if (lower origin =? "center")%string then "centre"%string
    else lower origin) =? "centre")%string.

(** What [axisBounds] computes once its keywords are accepted: the
    reductions, per requested axis, over the images of the eight
    corners. *)
Definition bounds_of_corners (shape : Z * Z * Z) (xform : mat4)
    (axes : axes_arg) (centre low_adjust high_adjust : bool) (offset : R)
    : result bounds :=
  let '(nx, ny, nz) := shape in
  let rows :=
    map (world_row xform)
      (corner_points
         (low_coord centre low_adjust offset)
         (low_coord centre low_adjust offset)
         (low_coord centre low_adjust offset)
         (high_coord centre high_adjust offset nx)
         (high_coord centre high_adjust offset ny)
         (high_coord centre high_adjust offset nz)) in
  js <- mapM (norm_index 3) (requested_axes axes) ;;
  let lo := map (column_reduce Rmin rows) js in
  let hi := map (column_reduce Rmax rows) js in
  Ok (if scalar_request axes then ScalarBounds (nth 0 lo 0) (nth 0 hi 0)
      else ArrayBounds lo hi).

(** The coordinate along one axis of the image of the point [(a, b, c)],
    from the row [(w0, w1, w2)] of the linear part and the translation
    [t], in the order [np.dot] and the addition compute it. *)
Definition axis_value (w0 w1 w2 t a b c : R) : R :=
  w0 * a + (w1 * b + (w2 * c + 0)) + t.




(** ** Vocabulary of the further properties *)

(** A rotation matrix whose [yLen] is [1e-9]: not zero, yet close to zero
    for [np.isclose]. *)
Definition nearly_locked_rotation : mat3 :=
  Mat3 (Vec3 0 (-1) 0)
       (Vec3 1e-9 0 (- sqrt (1 - 1e-9 * 1e-9)))
       (Vec3 (sqrt (1 - 1e-9 * 1e-9)) 0 1e-9).

(** Sum, entry-wise product and matrix-vector product of 3-vectors. *)
Definition add3 (u v : vec3) : vec3 :=
  Vec3 (v3_0 u + v3_0 v) (v3_1 u + v3_1 v) (v3_2 u + v3_2 v).

Definition hadamard3 (u v : vec3) : vec3 :=
  Vec3 (v3_0 u * v3_0 v) (v3_1 u * v3_1 v) (v3_2 u * v3_2 v).

Definition mulv3 (m : mat3) (v : vec3) : vec3 :=
  Vec3 (dot3 (m3_0 m) v) (dot3 (m3_1 m) v) (dot3 (m3_2 m) v).

(** The rotation origin [compose] works with: [(0, 0, 0)] when none is
    given. *)
Definition origin_or_zero (origin : option vec3) : vec3 :=
  match origin with Some o => o | None => Vec3 0 0 0 end.

(** The number of the column a valid axis index selects: a negative index
    counts from the end. *)
Definition axis_number (ax : Z) : nat := Z.to_nat (ax mod 3).

(** The least and the greatest coordinate along world axis [j] over the
    box from [(lo, lo, lo)] to [(hx, hy, hz)] sent through [xform]. *)
Definition image_min (xform : mat4) (lo hx hy hz : R) (j : nat) : R :=
  let w := row3 (linear_part xform) j in
  Rmin (v3_0 w * lo) (v3_0 w * hx) + Rmin (v3_1 w * lo) (v3_1 w * hy)
  + Rmin (v3_2 w * lo) (v3_2 w * hz) + get3 (translation_part xform) j.

Definition image_max (xform : mat4) (lo hx hy hz : R) (j : nat) : R :=
  let w := row3 (linear_part xform) j in
  Rmax (v3_0 w * lo) (v3_0 w * hx) + Rmax (v3_1 w * lo) (v3_1 w * hy)
  + Rmax (v3_2 w * lo) (v3_2 w * hz) + get3 (translation_part xform) j.

(** [str.upper] on the ASCII letters. *)
Definition upper_ascii (c : ascii) : ascii :=
  let n := nat_of_ascii c in
  if ((97 <=? n) && (n <=? 122))%nat then ascii_of_nat (n - 32) else c.

Fixpoint upper (s : string) : string :=
  match s with
  | EmptyString => EmptyString
  | String c s' => String (upper_ascii c) (upper s')
  end.

(** The bounds [main] of [axisBounds.py] computes from the three
    dimensions and the matrix it has read, before it prints them with
    their difference: [axisBounds(shape, xform, axes = 2, boundary =
    "both", origin = "centre")], with the default [offset]. *)
Definition main_bounds (dim1 dim2 dim3 : Z) (xform : mat4) : result bounds :=
  let shape := (dim1, dim2, dim3) in
  axisBounds shape xform (AxInt 2) "centre" (Some "both"%string) 1e-4.

(** What [_fillPoints] sees of its arguments once [axes] is given: the
    sequence of axes, the rows of [p] as a 2-D array (a 1-D array of [N]
    values is reshaped to [N] rows of one value) and its number of
    columns. *)
Definition given_axes (axes : axes_arg) : list Z :=
  match axes with AxNone => [] | AxInt ax => [ax] | AxList l => l end.

Definition point_rows (p : ndarray) : list (list R) :=
  match p with
  | Scalar x => [[x]]
  | Arr1 l => map (fun x => [x]) l
  | Arr2 _ rows => rows
  end.

Definition point_columns (p : ndarray) : nat :=
  match p with Arr2 c _ => c | _ => 1%nat end.

(** [row[j] = x] on a row given as a list. *)
Definition assign_one (row : list R) (j : nat) (x : R) : list R :=
  firstn j row ++ x :: skipn (S j) row.

(** The row of [newp] that the loop of [_fillPoints] leaves for the row
    [prow] of [p], when it runs over the columns [js] from index [i]. *)
Fixpoint placed_row (js : list nat) (i : nat) (prow row : list R) : list R :=
  match js with
  | [] => row
  | j :: js' => placed_row js' (S i) prow (assign_one row j (nth i prow 0))
  end.

(** [t[0]] when [t] has one element, [t] otherwise, for a 1-D array. *)
Definition squeeze1 (l : list R) : ndarray :=
  match l with [x] => Scalar x | _ => Arr1 l end.

(** A line of ASCII text. *)
Definition ascii_line (l : string) : bool :=
  forallb (fun c => (nat_of_ascii c <? 128)%nat) (list_ascii_of_string l).

(** A line [readlines] hands on as it is: not empty, no [#] in front, no
    white space at either end. *)
Definition clean_line (py3 : bool) (l : string) : Prop :=
  l <> EmptyString /\ ReadLines.startswith_hash l = false /\
  (forall c l', l = String c l' -> ReadLines.is_space py3 c = false) /\
  (forall l' c, list_ascii_of_string l = l' ++ [c] ->
                ReadLines.is_space py3 c = false).

(** * Properties *)

(** Unfolds the fixed-shape array operations down to arithmetic on the
    entries. *)
Ltac unfold_arrays :=
  cbv beta iota zeta delta
    [get3 get4 row3 row4 at3 at4 set3 set4 setrow3 setrow4 setat3 setat4
     eye3 eye4 col3 col4 transpose3 transpose4 dot3 dot4 sub3 scale3
     div3 neg3 rowmul3 rowmul4 matmul3 matmul4 np_dot NpDot_mat3
     NpDot_mat4 head3 linear_part translation_part set_linear_part det3
     concat fold_left
     v3_0 v3_1 v3_2 v4_0 v4_1 v4_2 v4_3 m3_0 m3_1 m3_2 m4_0 m4_1 m4_2 m4_3].

Ltac unfold_arrays_in H :=
  cbv beta iota zeta delta
    [get3 get4 row3 row4 at3 at4 set3 set4 setrow3 setrow4 setat3 setat4
     eye3 eye4 col3 col4 transpose3 transpose4 dot3 dot4 sub3 scale3
     div3 neg3 rowmul3 rowmul4 matmul3 matmul4 np_dot NpDot_mat3
     NpDot_mat4 head3 linear_part translation_part set_linear_part det3
     concat fold_left
     v3_0 v3_1 v3_2 v4_0 v4_1 v4_2 v4_3 m3_0 m3_1 m3_2 m4_0 m4_1 m4_2 m4_3]
    in H.

(** ** The bottom row of composed affines *)

Section BottomRow.

Lemma eye4_bottom_row : affine_bottom_row eye4.
Proof. reflexivity. Qed.

Lemma setat4_bottom_row m i j x :
  (i < 3)%nat -> affine_bottom_row m -> affine_bottom_row (setat4 m i j x).
Proof.
  intros Hi Hm. unfold affine_bottom_row in *.
  destruct i as [ | [ | [ | i]]]; [exact Hm | exact Hm | exact Hm | lia].
Qed.

Lemma set_linear_part_bottom_row m r :
  affine_bottom_row m -> affine_bottom_row (set_linear_part m r).
Proof. intros Hm. exact Hm. Qed.

Lemma matmul4_bottom_row a b :
  affine_bottom_row a -> affine_bottom_row b ->
  affine_bottom_row (matmul4 a b).
Proof.
  unfold affine_bottom_row.
  destruct a as [a0 a1 a2 a3], b as [[b00 b01 b02 b03] [b10 b11 b12 b13]
    [b20 b21 b22 b23] b3].
  unfold_arrays. intros -> ->. f_equal; ring.
Qed.

Lemma concat_bottom_row (rest : list mat4) : forall first,
  affine_bottom_row first -> Forall affine_bottom_row rest ->
  affine_bottom_row (concat first rest).
Proof.
  induction rest as [ | m rest IH]; intros first Hfirst Hrest.
  - exact Hfirst.
  - inversion Hrest as [ | ? ? Hm Hrest']; subst.
    apply (IH (matmul4 first m)); [ | exact Hrest'].
    apply matmul4_bottom_row; assumption.
Qed.

End BottomRow.

Create HintDb bottom_row.

#[local] Hint Resolve eye4_bottom_row setat4_bottom_row
  set_linear_part_bottom_row : bottom_row.

(** C8.  Whatever the scales, the offsets, the rotation (three angles or a
    matrix) and the optional origin, the last row of the matrix [compose]
    returns is exactly [(0, 0, 0, 1)]. *)
Theorem compose_bottom_row scales offsets rotations origin :
  row4 (compose scales offsets rotations origin) 3 = Vec4 0 0 0 1.
Proof.
  change (affine_bottom_row (compose scales offsets rotations origin)).
  unfold compose. destruct origin as [origin | ];
    apply concat_bottom_row;
    repeat (apply Forall_cons || apply Forall_nil);
    auto 10 with bottom_row.
Qed.

(** ** The last shear assignment of [decompose] *)

Lemma l_syz_body f xform angles :
  l_syz (decompose_body f xform angles) =
  let xform3 := linear_part (transpose4 xform) in
  let M1 := row3 xform3 0 in
  let M2 := row3 xform3 1 in
  let M3 := row3 xform3 2 in
  let sxy := dot3 M1 M2 in
  let M2 := sub3 M2 (scale3 sxy M1) in
  let sy := sqrt (dot3 M2 M2) in
  let M2 := div3 M2 sy in
  let sxz := dot3 M1 M3 in
  let syz := dot3 M2 M3 in
  let M3 := sub3 (sub3 M3 (scale3 sxz M1)) (scale3 syz M2) in
  let sz := sqrt (dot3 M3 M3) in
  f (sxz / sz) syz sz.
Proof.
  unfold decompose_body. cbv zeta. destruct (Rlt_dec _ 0); reflexivity.
Qed.

(** The two assignments are not the same: on [sheared_affine] the script
    leaves [syz = 1/4] where [syz = syz / sz] leaves [1/2]. *)
Lemma sheared_affine_syz :
  l_syz (decompose_body (fun sxz _ sz => sxz / sz) sheared_affine true)
    = 1 / 4 /\
  l_syz (decompose_body (fun _ syz sz => syz / sz) sheared_affine true)
    = 1 / 2.
Proof.
  rewrite !l_syz_body. unfold sheared_affine. unfold_arrays.
  replace ((0 - (1 * 0 + 0 * 1 + 0 * 0) * 1)
             * (0 - (1 * 0 + 0 * 1 + 0 * 0) * 1)
           + (1 - (1 * 0 + 0 * 1 + 0 * 0) * 0)
             * (1 - (1 * 0 + 0 * 1 + 0 * 0) * 0)
           + (0 - (1 * 0 + 0 * 1 + 0 * 0) * 0)
             * (0 - (1 * 0 + 0 * 1 + 0 * 0) * 0))
    with 1 by ring.
  rewrite sqrt_1.
  match goal with
  | |- context [sqrt ?e] => replace e with (2 * 2) by (field; lra)
  end.
  rewrite sqrt_square by lra. split; field.
Qed.

(** C9.  On every affine, and for both values of [angles], [decompose]
    returns what the variant with [syz = syz / sz] returns; more generally
    the returned triple is the same whatever is assigned to [syz] in that
    statement: the rescaled shear factors are not part of the returned
    value. *)
Theorem decompose_syz_fix_same_result xform angles :
  decompose xform angles = decompose_syz_fixed xform angles /\
  forall rescale_syz,
    decompose_return (decompose_body rescale_syz xform angles)
    = decompose xform angles.
Proof.
  unfold decompose, decompose_syz_fixed, decompose_body, decompose_return.
  cbv zeta. destruct (Rlt_dec _ 0); split; reflexivity.
Qed.

(** ** The two-argument arctangent *)

Section Arctan2.

Lemma tan_scaled r t : r <> 0 -> cos t <> 0 -> r * sin t / (r * cos t) = tan t.
Proof. intros Hr Hc. unfold tan. field. split; assumption. Qed.

Lemma tan_minus_PI t : cos t <> 0 -> tan (t - PI) = tan t.
Proof.
  intros Hc. unfold tan, Rminus.
  rewrite sin_plus, cos_plus, sin_neg, cos_neg, sin_PI, cos_PI. field. exact Hc.
Qed.

Lemma tan_plus_PI t : cos t <> 0 -> tan (t + PI) = tan t.
Proof.
  intros Hc. unfold tan.
  rewrite sin_plus, cos_plus, sin_PI, cos_PI. field. exact Hc.
Qed.

Lemma cos_third_quadrant t : - PI < t < - (PI / 2) -> cos t < 0.
Proof. intros [H1 H2]. rewrite <- cos_neg. apply cos_lt_0; lra. Qed.

(** [arctan2] recovers the angle of a point given in polar form. *)
Lemma arctan2_polar r t :
  0 < r -> - PI < t <= PI -> arctan2 (r * sin t) (r * cos t) = t.
Proof.
  intros Hr [Hlo Hhi]. pose proof PI_RGT_0 as Hpi. unfold arctan2.
  destruct (Rlt_dec t (- (PI / 2))) as [Ha | Ha].
  - assert (Hc : cos t < 0) by (apply cos_third_quadrant; lra).
    assert (Hs : sin t < 0) by (apply sin_lt_0_var; lra).
    destruct (Rlt_dec 0 (r * cos t)) as [H | _]; [nra | ].
    destruct (Rlt_dec (r * cos t) 0) as [_ | H]; [ | nra].
    destruct (Rle_dec 0 (r * sin t)) as [H | _]; [nra | ].
    rewrite tan_scaled by lra.
    rewrite <- tan_plus_PI by lra. rewrite atan_tan by lra. lra.
  - destruct (Req_dec t (- (PI / 2))) as [Hb | Hb].
    + subst t. rewrite cos_neg, sin_neg, cos_PI2, sin_PI2.
      destruct (Rlt_dec 0 (r * 0)) as [H | _]; [lra | ].
      destruct (Rlt_dec (r * 0) 0) as [H | _]; [lra | ].
      destruct (Rlt_dec 0 (r * - (1))) as [H | _]; [lra | ].
      destruct (Rlt_dec (r * - (1)) 0) as [_ | H]; [reflexivity | lra].
    + destruct (Rlt_dec t (PI / 2)) as [Hc | Hc].
      * assert (Hcos : 0 < cos t) by (apply cos_gt_0; lra).
        destruct (Rlt_dec 0 (r * cos t)) as [_ | H]; [ | nra].
        rewrite tan_scaled by lra. apply atan_tan. lra.
      * destruct (Req_dec t (PI / 2)) as [Hd | Hd].
        -- subst t. rewrite cos_PI2, sin_PI2.
           destruct (Rlt_dec 0 (r * 0)) as [H | _]; [lra | ].
           destruct (Rlt_dec (r * 0) 0) as [H | _]; [lra | ].
           destruct (Rlt_dec 0 (r * 1)) as [_ | H]; [reflexivity | lra].
        -- assert (Hcos : cos t < 0) by (apply cos_lt_0; lra).
           assert (Hsin : 0 <= sin t) by (apply sin_ge_0; lra).
           destruct (Rlt_dec 0 (r * cos t)) as [H | _]; [nra | ].
           destruct (Rlt_dec (r * cos t) 0) as [_ | H]; [ | nra].
           destruct (Rle_dec 0 (r * sin t)) as [_ | H]; [ | nra].
           rewrite tan_scaled by lra.
           rewrite <- tan_minus_PI by lra. rewrite atan_tan by lra. lra.
Qed.

Lemma sqrt_ratio x y : 0 < x -> sqrt (1 + (y / x)²) = sqrt (x ^ 2 + y ^ 2) / x.
Proof.
  intros Hx.
  replace (1 + (y / x)²) with ((x ^ 2 + y ^ 2) / (x ^ 2))
    by (unfold Rsqr; field; lra).
  rewrite sqrt_div_alt by nra.
  replace (x ^ 2) with (x²) by (unfold Rsqr; ring).
  rewrite sqrt_Rsqr by lra. reflexivity.
Qed.

Lemma sqrt_sumsq_pos x y : x <> 0 \/ y <> 0 -> 0 < sqrt (x ^ 2 + y ^ 2).
Proof. intros H. apply sqrt_lt_R0. destruct H; nra. Qed.

Lemma atan_cos_sin x y :
  0 < x ->
  cos (atan (y / x)) = x / sqrt (x ^ 2 + y ^ 2) /\
  sin (atan (y / x)) = y / sqrt (x ^ 2 + y ^ 2).
Proof.
  intros Hx. rewrite cos_atan, sin_atan, sqrt_ratio by assumption.
  assert (Hr : 0 < sqrt (x ^ 2 + y ^ 2)) by (apply sqrt_sumsq_pos; lra).
  split; field; lra.
Qed.

(** The cosine and sine of [arctan2 y x] are those of the direction of
    [(x, y)]. *)
Lemma arctan2_cos_sin y x :
  x <> 0 \/ y <> 0 ->
  cos (arctan2 y x) = x / sqrt (x ^ 2 + y ^ 2) /\
  sin (arctan2 y x) = y / sqrt (x ^ 2 + y ^ 2).
Proof.
  intros Hxy. unfold arctan2.
  assert (Hr : 0 < sqrt (x ^ 2 + y ^ 2)) by (apply sqrt_sumsq_pos; assumption).
  destruct (Rlt_dec 0 x) as [Hx | Hx].
  - apply atan_cos_sin; assumption.
  - destruct (Rlt_dec x 0) as [Hx' | Hx'].
    + assert (Hneg : 0 < - x) by lra.
      destruct (atan_cos_sin (- x) (- y) Hneg) as [Hc Hs].
      replace (- y / - x) with (y / x) in Hc, Hs by (field; lra).
      replace ((- x) ^ 2 + (- y) ^ 2) with (x ^ 2 + y ^ 2) in Hc, Hs by ring.
      destruct (Rle_dec 0 y) as [Hy | Hy].
      * rewrite neg_cos, neg_sin, Hc, Hs. split; field; lra.
      * unfold Rminus.
        rewrite cos_plus, sin_plus, cos_neg, sin_neg, cos_PI, sin_PI, Hc, Hs.
        split; field; lra.
    + assert (x = 0) by lra. subst x.
      assert (Hy0 : y <> 0) by (destruct Hxy; [lra | assumption]).
      replace (0 ^ 2 + y ^ 2) with (y²) in * by (unfold Rsqr; ring).
      destruct (Rlt_dec 0 y) as [Hy | Hy].
      * rewrite sqrt_Rsqr by lra. rewrite cos_PI2, sin_PI2. split; field; lra.
      * destruct (Rlt_dec y 0) as [Hy' | Hy']; [ | lra].
        rewrite cos_neg, sin_neg, cos_PI2, sin_PI2.
        rewrite (Rsqr_neg y), sqrt_Rsqr by lra. split; field; lra.
Qed.

End Arctan2.

(** ** Rotation matrices and axis angles *)

Section Rotations.

(** The product [zmat . ymat . xmat], entry by entry. *)
Lemma axisAnglesToRotMat_entries x y z :
  axisAnglesToRotMat x y z =
  Mat3 (Vec3 (cos z * cos y) (cos z * sin y * sin x - sin z * cos x)
         (cos z * sin y * cos x + sin z * sin x))
     (Vec3 (sin z * cos y) (sin z * sin y * sin x + cos z * cos x)
         (sin z * sin y * cos x - cos z * sin x))
     (Vec3 (- sin y) (cos y * sin x) (cos y * cos x)).
Proof.
  unfold axisAnglesToRotMat. unfold_arrays. f_equal; f_equal; ring.
Qed.

Lemma isclose_0_false v : 0 <= v -> isclose v 0 = false -> 1e-8 < v.
Proof.
  unfold isclose. intros Hv.
  destruct (Rle_dec _ _) as [H | H]; [discriminate | intros _].
  rewrite Rminus_0_r, Rabs_R0, (Rabs_pos_eq v Hv) in H. lra.
Qed.

Lemma isclose_0_true v : 0 <= v -> v <= 1e-8 -> isclose v 0 = true.
Proof.
  unfold isclose. intros Hv Hle.
  destruct (Rle_dec _ _) as [H | H]; [reflexivity | ].
  rewrite Rminus_0_r, Rabs_R0, (Rabs_pos_eq v Hv) in H. lra.
Qed.

End Rotations.

Section RotationRoundTrip.

Lemma is_rotation_entries a b c d e f g h i :
  is_rotation (Mat3 (Vec3 a b c) (Vec3 d e f) (Vec3 g h i)) ->
  a * a + d * d + g * g = 1 /\ g * g + h * h + i * i = 1 /\
  b * (a * a + d * d) = - (a * g * h) - d * i /\
  c * (a * a + d * d) = - (a * g * i) + d * h /\
  e * (a * a + d * d) = - (d * g * h) + a * i /\
  f * (a * a + d * d) = - (d * g * i) - a * h.
Proof.
  intros [Ho Hd]. unfold_arrays_in Ho. unfold_arrays_in Hd.
  injection Ho as H00 H01 H02 H10 H11 H12 H20 H21 H22.
  repeat split; nsatz.
Qed.

Lemma rotMatToAxisAngles_reencode (rotmat : mat3) :
  is_rotation rotmat ->
  isclose (yLen rotmat) 0 = false ->
  reencode (rotMatToAxisAngles rotmat) = rotmat.
Proof.
  destruct rotmat as [[a b c] [d e f] [g h i]]. intros Hrot Hfar.
  destruct (is_rotation_entries _ _ _ _ _ _ _ _ _ Hrot)
    as (Hcol & Hrow & Hb & Hc & He & Hf).
  unfold yLen in Hfar. unfold reencode, rotMatToAxisAngles. rewrite Hfar.
  unfold_arrays_in Hfar. unfold_arrays.
  set (L := sqrt (a ^ 2 + d ^ 2)) in *.
  assert (HL : 0 < L).
  { pose proof (isclose_0_false L (sqrt_pos _) Hfar). lra. }
  assert (HLL : L * L = a * a + d * d).
  { unfold L. rewrite sqrt_sqrt by nra. ring. }
  rewrite <- HLL in Hb, Hc, He, Hf.
  assert (Had : a <> 0 \/ d <> 0).
  { destruct (Req_dec a 0) as [Ha | Ha]; [right | left; exact Ha].
    intros Hd. subst a d. nra. }
  destruct (arctan2_cos_sin d a Had) as [Hcz Hsz]. fold L in Hcz, Hsz.
  destruct (arctan2_cos_sin (- g) L (or_introl (Rgt_not_eq _ _ HL)))
    as [Hcy Hsy].
  replace (L ^ 2 + (- g) ^ 2) with 1 in Hcy, Hsy by nra.
  rewrite sqrt_1 in Hcy, Hsy.
  assert (Hih : i <> 0 \/ h <> 0).
  { destruct (Req_dec i 0) as [Hi | Hi]; [right | left; exact Hi].
    intros Hh. subst i h. nra. }
  destruct (arctan2_cos_sin h i Hih) as [Hcx Hsx].
  replace (i ^ 2 + h ^ 2) with (a ^ 2 + d ^ 2) in Hcx, Hsx by nra.
  fold L in Hcx, Hsx.
  rewrite axisAnglesToRotMat_entries, Hcz, Hsz, Hcy, Hsy, Hcx, Hsx.
  f_equal; f_equal.
  - field; lra.
  - replace b with (b * (L * L) / (L * L)) by (field; lra).
    rewrite Hb. field; lra.
  - replace c with (c * (L * L) / (L * L)) by (field; lra).
    rewrite Hc. field; lra.
  - field; lra.
  - replace e with (e * (L * L) / (L * L)) by (field; lra).
    rewrite He. field; lra.
  - replace f with (f * (L * L) / (L * L)) by (field; lra).
    rewrite Hf. field; lra.
  - field; lra.
  - field; lra.
  - field; lra.
Qed.

(** The gimbal-lock branch: with [yrot = pi/2] only the difference of the
    other two angles is left in the matrix, and it is returned as [xrot]. *)
Lemma rotMatToAxisAngles_gimbal x z :
  - PI < x - z <= PI ->
  yLen (axisAnglesToRotMat x (PI / 2) z) = 0 /\
  rotMatToAxisAngles (axisAnglesToRotMat x (PI / 2) z)
    = Vec3 (x - z) (PI / 2) 0.
Proof.
  intros Hxz.
  assert (Hy : yLen (axisAnglesToRotMat x (PI / 2) z) = 0).
  { unfold yLen. rewrite axisAnglesToRotMat_entries. unfold_arrays.
    rewrite cos_PI2.
    replace ((cos z * 0) ^ 2 + (sin z * 0) ^ 2) with 0 by ring.
    apply sqrt_0. }
  split; [exact Hy | ].
  unfold rotMatToAxisAngles. fold (yLen (axisAnglesToRotMat x (PI / 2) z)).
  rewrite Hy, (isclose_0_true 0) by lra.
  rewrite axisAnglesToRotMat_entries. unfold_arrays.
  rewrite sin_PI2. f_equal.
  - replace (- (sin z * 1 * cos x - cos z * sin x)) with (1 * sin (x - z))
      by (rewrite sin_minus; ring).
    replace (sin z * 1 * sin x + cos z * cos x) with (1 * cos (x - z))
      by (rewrite cos_minus; ring).
    apply arctan2_polar; lra.
  - replace (- - (1)) with (1 * sin (PI / 2)) by (rewrite sin_PI2; ring).
    replace 0 with (1 * cos (PI / 2)) at 1 by (rewrite cos_PI2; ring).
    pose proof PI_RGT_0. apply arctan2_polar; lra.
Qed.

Lemma reencode_gimbal x z :
  reencode (Vec3 (x - z) (PI / 2) 0) = axisAnglesToRotMat x (PI / 2) z.
Proof.
  unfold reencode. unfold_arrays. rewrite !axisAnglesToRotMat_entries.
  rewrite cos_minus, sin_minus, cos_0, sin_0, cos_PI2, sin_PI2.
  f_equal; f_equal; ring.
Qed.

End RotationRoundTrip.

(** ** [decompose] after [compose] *)

Section DecomposeScaledFrame.

Lemma dot3_scale_scale a b u v :
  dot3 (scale3 a u) (scale3 b v) = a * b * dot3 u v.
Proof. unfold_arrays. ring. Qed.

Lemma sub3_scale3_0 v w : sub3 v (scale3 0 w) = v.
Proof. destruct v, w. unfold_arrays. f_equal; ring. Qed.

Lemma div3_scale3 s u k : div3 (scale3 s u) k = scale3 (s / k) u.
Proof. unfold_arrays. f_equal; unfold Rdiv; ring. Qed.

Lemma sqrt_sq_abs s : sqrt (s * s * 1) = Rabs s.
Proof. rewrite Rmult_1_r. apply sqrt_Rsqr_abs. Qed.

Lemma det3_scaled_rows a b c u0 u1 u2 :
  det3 (Mat3 (scale3 a u0) (scale3 b u1) (scale3 c u2))
  = a * b * c * det3 (Mat3 u0 u1 u2).
Proof. unfold_arrays. ring. Qed.

Variables (u0 u1 u2 : vec3) (s0 s1 s2 : R).
Hypothesis Hframe : orthonormal_frame u0 u1 u2.

Lemma decompose_scaled_frame xform angles :
  linear_part (transpose4 xform)
    = Mat3 (scale3 s0 u0) (scale3 s1 u1) (scale3 s2 u2) ->
  decompose xform angles =
    let R_ := Mat3 (scale3 s0 u0) (scale3 (s1 / Rabs s1) u1)
                 (scale3 (s2 / Rabs s2) u2) in
    let translations := head3 (row4 (transpose4 xform) 3) in
    if Rlt_dec (det3 R_) 0
    then (Vec3 (- Rabs s0) (Rabs s1) (Rabs s2), translations,
          rotation_result angles
            (transpose3 (setrow3 R_ 0 (neg3 (row3 R_ 0)))))
    else (Vec3 (Rabs s0) (Rabs s1) (Rabs s2), translations,
          rotation_result angles (transpose3 R_)).
Proof.
  intros Hrows.
  destruct Hframe as (H00 & H11 & H22 & H01 & H02 & H12).
  unfold decompose, decompose_return, decompose_body. cbv zeta.
  rewrite Hrows. cbv beta iota delta [row3 m3_0 m3_1 m3_2].
  repeat first
    [ rewrite dot3_scale_scale | rewrite H00 | rewrite H11 | rewrite H22
    | rewrite H01 | rewrite H02 | rewrite H12 | rewrite Rmult_0_r
    | rewrite sub3_scale3_0 | rewrite sqrt_sq_abs | rewrite div3_scale3 ].
  destruct (Rlt_dec _ 0); reflexivity.
Qed.


End DecomposeScaledFrame.

Section ComposeThenDecompose.

Lemma sin2_cos2_prod t : sin t * sin t + cos t * cos t = 1.
Proof. pose proof (sin2_cos2 t) as H. unfold Rsqr in H. exact H. Qed.

Lemma axisAnglesToRotMat_is_rotation x y z :
  is_rotation (axisAnglesToRotMat x y z).
Proof.
  pose proof (sin2_cos2_prod x) as Hx. pose proof (sin2_cos2_prod y) as Hy.
  pose proof (sin2_cos2_prod z) as Hz.
  rewrite axisAnglesToRotMat_entries. split.
  - unfold_arrays. f_equal; f_equal; nsatz.
  - unfold_arrays. nsatz.
Qed.

Lemma rotation_matrix_is_rotation rotations :
  valid_rotation rotations -> is_rotation (rotation_matrix rotations).
Proof.
  destruct rotations as [a | m]; simpl; intros H.
  - apply axisAnglesToRotMat_is_rotation.
  - exact H.
Qed.

Lemma is_rotation_frame m :
  is_rotation m ->
  orthonormal_frame (col3 m 0) (col3 m 1) (col3 m 2) /\
  det3 (Mat3 (col3 m 0) (col3 m 1) (col3 m 2)) = 1.
Proof.
  destruct m as [[a b c] [d e f] [g h i]]. intros [Ho Hd].
  unfold_arrays_in Ho. unfold_arrays_in Hd.
  injection Ho as H00 H01 H02 H10 H11 H12 H20 H21 H22.
  unfold orthonormal_frame. unfold_arrays.
  repeat split; try assumption. rewrite <- Hd. ring.
Qed.

(** The rows of the transposed linear part [decompose] starts from are the
    columns of the rotation, each scaled by its factor. *)
Lemma compose_linear_rows scales offsets rotations origin :
  linear_part (transpose4 (compose scales offsets rotations origin))
  = Mat3 (scale3 (get3 scales 0) (col3 (rotation_matrix rotations) 0))
       (scale3 (get3 scales 1) (col3 (rotation_matrix rotations) 1))
       (scale3 (get3 scales 2) (col3 (rotation_matrix rotations) 2)).
Proof.
  unfold compose. fold (rotation_matrix rotations).
  destruct (rotation_matrix rotations) as [[a b c] [d e f] [g h i]].
  destruct scales as [s0 s1 s2], offsets as [t0 t1 t2].
  destruct origin as [[o0 o1 o2] | ]; unfold_arrays; f_equal; f_equal; ring.
Qed.

Lemma compose_translation scales offsets rotations :
  head3 (row4 (transpose4 (compose scales offsets rotations None)) 3)
  = offsets.
Proof.
  unfold compose. fold (rotation_matrix rotations).
  destruct (rotation_matrix rotations) as [[a b c] [d e f] [g h i]].
  destruct scales as [s0 s1 s2], offsets as [t0 t1 t2].
  unfold_arrays; f_equal; ring.
Qed.
End ComposeThenDecompose.

Section ComposeThenDecomposeResults.

Lemma unit_sign_pos s : 0 < s -> s / Rabs s = 1.
Proof. intros H. rewrite Rabs_pos_eq by lra. field. lra. Qed.

Lemma unit_sign_neg s : s < 0 -> s / Rabs s = -1.
Proof. intros H. rewrite Rabs_left by lra. field. lra. Qed.

Lemma isclose_0_far v : 1e-8 < v -> isclose v 0 = false.
Proof.
  unfold isclose. intros Hv.
  destruct (Rle_dec _ _) as [H | H]; [ | reflexivity].
  rewrite Rminus_0_r, Rabs_R0, Rabs_pos_eq in H by lra. lra.
Qed.

(** The scales [decompose] reports for a composed affine: magnitudes of the
    scales that went in, with the sign of their product on the first. *)
Lemma decompose_compose_scales scales offsets rotations origin angles :
  valid_rotation rotations ->
  get3 scales 1 <> 0 -> get3 scales 2 <> 0 ->
  fst (fst (decompose (compose scales offsets rotations origin) angles))
  = Vec3 (if Rlt_dec (get3 scales 0 * get3 scales 1 * get3 scales 2) 0
        then - Rabs (get3 scales 0) else Rabs (get3 scales 0))
       (Rabs (get3 scales 1)) (Rabs (get3 scales 2)).
Proof.
  intros Hrot H1 H2.
  apply rotation_matrix_is_rotation, is_rotation_frame in Hrot.
  destruct Hrot as [Hframe Hdet].
  rewrite (decompose_scaled_frame _ _ _ _ _ _ Hframe _ _
             (compose_linear_rows scales offsets rotations origin)).
  cbv zeta. rewrite det3_scaled_rows, Hdet.
  set (s0 := get3 scales 0) in *. set (s1 := get3 scales 1) in *.
  set (s2 := get3 scales 2) in *.
  assert (Hsign : forall s, s <> 0 ->
            (0 < s /\ s / Rabs s = 1) \/ (s < 0 /\ s / Rabs s = -1)).
  { intros s Hs. destruct (Rlt_dec 0 s) as [Hp | Hp].
    - left. split; [exact Hp | apply unit_sign_pos; exact Hp].
    - right. split; [lra | apply unit_sign_neg; lra]. }
  assert (H12 : 0 < s1 * s2 \/ s1 * s2 < 0).
  { destruct (Hsign s1 H1) as [[Hp1 _] | [Hp1 _]];
      destruct (Hsign s2 H2) as [[Hp2 _] | [Hp2 _]]; nra. }
  destruct (Hsign s1 H1) as [[Hp1 ->] | [Hp1 ->]];
    destruct (Hsign s2 H2) as [[Hp2 ->] | [Hp2 ->]];
    destruct (Rlt_dec _ 0) as [Hd | Hd];
    destruct (Rlt_dec (s0 * s1 * s2) 0) as [Hp | Hp];
    try reflexivity; exfalso; destruct H12 as [H12 | H12]; nra.
Qed.

(** Angles come back from a rotation whose first column was scaled. *)
Lemma rotMatToAxisAngles_scaled_column k x y z :
  0 < k -> - PI < x <= PI -> - (PI / 2) < y < PI / 2 -> - PI < z <= PI ->
  1e-8 < k * cos y ->
  rotMatToAxisAngles
    (transpose3 (Mat3 (scale3 k (col3 (axisAnglesToRotMat x y z) 0))
                    (scale3 1 (col3 (axisAnglesToRotMat x y z) 1))
                    (scale3 1 (col3 (axisAnglesToRotMat x y z) 2))))
  = Vec3 x y z.
Proof.
  intros Hk Hx Hy Hz Hfar.
  assert (Hcy : 0 < cos y) by (apply cos_gt_0; lra).
  pose proof (sin2_cos2_prod z) as Hsc.
  unfold rotMatToAxisAngles. rewrite axisAnglesToRotMat_entries.
  unfold_arrays.
  replace ((k * (cos z * cos y)) ^ 2 + (k * (sin z * cos y)) ^ 2)
    with ((k * cos y)² * (sin z * sin z + cos z * cos z))
    by (unfold Rsqr; ring).
  rewrite Hsc, Rmult_1_r.
  rewrite sqrt_Rsqr by nra. rewrite isclose_0_far by exact Hfar.
  f_equal.
  - replace (1 * (cos y * sin x)) with (cos y * sin x) by ring.
    replace (1 * (cos y * cos x)) with (cos y * cos x) by ring.
    apply arctan2_polar; assumption.
  - replace (- (k * - sin y)) with (k * sin y) by ring.
    apply arctan2_polar; [assumption | lra].
  - replace (k * (sin z * cos y)) with (k * cos y * sin z) by ring.
    replace (k * (cos z * cos y)) with (k * cos y * cos z) by ring.
    apply arctan2_polar; [nra | assumption].
Qed.

(** [decompose] undoes [compose] on positive scales and angles in the
    principal range, away from gimbal lock. *)
Lemma decompose_compose_identity s0 s1 s2 offsets x y z :
  0 < s0 -> 0 < s1 -> 0 < s2 ->
  - PI < x <= PI -> - (PI / 2) < y < PI / 2 -> - PI < z <= PI ->
  1e-8 < s0 * cos y ->
  decompose (compose (Vec3 s0 s1 s2) offsets (AxisAngles (Vec3 x y z)) None)
    true
  = (Vec3 s0 s1 s2, offsets, AxisAngles (Vec3 x y z)).
Proof.
  intros H0 H1 H2 Hx Hy Hz Hfar.
  destruct (is_rotation_frame _ (axisAnglesToRotMat_is_rotation x y z))
    as [Hframe Hdet].
  rewrite (decompose_scaled_frame _ _ _ _ _ _ Hframe _ _
             (compose_linear_rows (Vec3 s0 s1 s2) offsets
                (AxisAngles (Vec3 x y z)) None)).
  cbv zeta. rewrite det3_scaled_rows, Hdet, compose_translation.
  cbv beta iota delta [get3 v3_0 v3_1 v3_2].
  rewrite (unit_sign_pos s1), (unit_sign_pos s2) by assumption.
  destruct (Rlt_dec _ 0) as [Hd | Hd]; [exfalso; nra | ].
  rewrite !Rabs_pos_eq by lra.
  unfold rotation_result.
  rewrite rotMatToAxisAngles_scaled_column by assumption. reflexivity.
Qed.

End ComposeThenDecomposeResults.

(** ** Rotation, composition and decomposition: the stated properties *)

Lemma vec3_close_refl eps v : 0 <= eps -> vec3_close eps v v.
Proof.
  intros He. unfold vec3_close.
  rewrite !Rminus_diag, Rabs_R0. repeat split; exact He.
Qed.

Lemma mat3_close_refl eps m : 0 <= eps -> mat3_close eps m m.
Proof.
  intros He. unfold mat3_close. repeat split; apply vec3_close_refl; exact He.
Qed.

Lemma cos_02_lower : 0.98 < cos 0.2.
Proof.
  replace 0.2 with (2 * 0.1) by lra. rewrite cos_2a_sin.
  assert (Hlt : sin 0.1 < 0.1) by (apply sin_lt_x; lra).
  assert (Hgt : 0 < sin 0.1).
  { apply sin_gt_0; [lra | pose proof PI2_1; lra]. }
  nra.
Qed.

Lemma quarter_turn_is_rotation : is_rotation quarter_turn_z.
Proof.
  split; unfold quarter_turn_z; unfold_arrays;
    [f_equal; f_equal; ring | ring].
Qed.

Lemma quarter_turn_yLen : yLen quarter_turn_z = 1.
Proof.
  unfold yLen, quarter_turn_z. unfold_arrays.
  replace (0 ^ 2 + 1 ^ 2) with 1 by ring. apply sqrt_1.
Qed.

(** C1.  With scales [(2, 3, 4)], offsets [(1, 2, 3)] and angles
    [(0.1, 0.2, 0.3)], [decompose] applied to the composed affine returns
    scales, translations and rotation angles that agree with the inputs
    within [1e-6] (in exact arithmetic they are the inputs). *)
Theorem compose_decompose_example :
  let '(scales, translations, rotations) :=
    decompose (compose (Vec3 2 3 4) (Vec3 1 2 3) (AxisAngles (Vec3 0.1 0.2 0.3))
                 None) true in
  vec3_close 1e-6 scales (Vec3 2 3 4) /\
  vec3_close 1e-6 translations (Vec3 1 2 3) /\
  exists angles, rotations = AxisAngles angles /\
                 vec3_close 1e-6 angles (Vec3 0.1 0.2 0.3).
Proof.
  pose proof PI2_1 as Hpi. pose proof cos_02_lower as Hcos.
  rewrite decompose_compose_identity by lra.
  split; [ | split]; [apply vec3_close_refl; lra .. | ].
  eexists. split; [reflexivity | apply vec3_close_refl; lra].
Qed.

(** C2.  For a rotation matrix (orthonormal, determinant [+1]) whose
    [yLen] is not close to zero, [axisAnglesToRotMat] applied to the triple
    [rotMatToAxisAngles] returns gives the matrix back, entry by entry
    within [1e-9]. *)
Theorem rotation_round_trip (rotmat : mat3) :
  is_rotation rotmat ->
  isclose (yLen rotmat) 0 = false ->
  mat3_close 1e-9 (reencode (rotMatToAxisAngles rotmat)) rotmat.
Proof.
  intros Hrot Hfar. rewrite rotMatToAxisAngles_reencode by assumption.
  apply mat3_close_refl. lra.
Qed.

Lemma rotation_round_trip_witness :
  is_rotation quarter_turn_z /\
  isclose (yLen quarter_turn_z) 0 = false /\
  mat3_close 1e-9
    (reencode (rotMatToAxisAngles quarter_turn_z))
    quarter_turn_z.
Proof.
  assert (Hfar : isclose (yLen quarter_turn_z) 0
                 = false).
  { rewrite quarter_turn_yLen. apply isclose_0_far. lra. }
  split; [exact quarter_turn_is_rotation | split; [exact Hfar | ]].
  exact (rotation_round_trip _ quarter_turn_is_rotation Hfar).
Defined.

(** C3.  The matrix built from the angles [(0.5, pi/2, 0.7)] is in gimbal
    lock ([yLen] is zero and the lock branch is taken);
    [rotMatToAxisAngles] returns [zAngle = 0] with [xAngle = -0.2] and
    [yAngle = pi/2], and building the matrix again from the returned triple
    gives the original matrix. *)
Theorem gimbal_lock_example :
  let rotmat := axisAnglesToRotMat 0.5 (PI / 2) 0.7 in
  let angles := rotMatToAxisAngles rotmat in
  isclose (yLen rotmat) 0 = true /\
  get3 angles 2 = 0 /\
  angles = Vec3 (-0.2) (PI / 2) 0 /\
  reencode angles = rotmat.
Proof.
  cbv zeta. pose proof PI2_1 as Hpi.
  destruct (rotMatToAxisAngles_gimbal 0.5 0.7) as [Hy Hangles]; [lra | ].
  replace (0.5 - 0.7) with (-0.2) in Hangles by lra.
  rewrite Hy, Hangles. repeat split.
  - apply isclose_0_true; lra.
  - replace (-0.2) with (0.5 - 0.7) by lra. apply reencode_gimbal.
Qed.

(** C4.  When the scales of a composed affine are those of a reflection
    (one negative, two positive), [decompose] returns the magnitudes of the
    scales with the sign on [sx]: [sx] is negative, [sy] and [sz] are
    positive, whichever component was negative in the input; when it was
    the first, the returned scales are the input scales. *)
Theorem decompose_folds_reflection_into_sx
    scales offsets rotations origin angles :
  valid_rotation rotations ->
  reflection_scales scales ->
  let out :=
    fst (fst (decompose (compose scales offsets rotations origin) angles)) in
  out = Vec3 (- Rabs (get3 scales 0)) (Rabs (get3 scales 1))
           (Rabs (get3 scales 2)) /\
  (get3 out 0 < 0 /\ 0 < get3 out 1 /\ 0 < get3 out 2) /\
  (get3 scales 0 < 0 -> out = scales).
Proof.
  intros Hrot Hrefl. cbv zeta.
  assert (Hnz : get3 scales 0 <> 0 /\ get3 scales 1 <> 0 /\
                get3 scales 2 <> 0 /\
                get3 scales 0 * get3 scales 1 * get3 scales 2 < 0).
  { destruct Hrefl as [(H0 & H1 & H2) | [(H0 & H1 & H2) | (H0 & H1 & H2)]];
      repeat split; try lra.
    - assert (0 < get3 scales 1 * get3 scales 2) by nra. nra.
    - assert (get3 scales 1 * get3 scales 2 < 0) by nra. nra.
    - assert (get3 scales 1 * get3 scales 2 < 0) by nra. nra. }
  destruct Hnz as (Hn0 & Hn1 & Hn2 & Hprod).
  rewrite decompose_compose_scales by assumption.
  destruct (Rlt_dec _ 0) as [_ | Hno]; [ | contradiction].
  split; [reflexivity | split].
  - change (- Rabs (get3 scales 0) < 0 /\ 0 < Rabs (get3 scales 1) /\
            0 < Rabs (get3 scales 2)).
    pose proof (Rabs_pos_lt _ Hn0). pose proof (Rabs_pos_lt _ Hn1).
    pose proof (Rabs_pos_lt _ Hn2). repeat split; lra.
  - intros Hneg.
    destruct Hrefl as [(H0 & H1 & H2) | [(H0 & H1 & H2) | (H0 & H1 & H2)]];
      try lra.
    destruct scales as [s0 s1 s2].
    cbv beta iota delta [get3 v3_0 v3_1 v3_2] in *.
    rewrite (Rabs_left s0), (Rabs_pos_eq s1), (Rabs_pos_eq s2) by lra.
    f_equal. ring.
Qed.

Lemma decompose_folds_reflection_into_sx_witness :
  valid_rotation (AxisAngles (Vec3 0.1 0.2 0.3)) /\
  reflection_scales (Vec3 2 (-3) 4) /\
  fst (fst (decompose (compose (Vec3 2 (-3) 4) (Vec3 1 2 3)
                         (AxisAngles (Vec3 0.1 0.2 0.3)) None) true))
  = Vec3 (- Rabs 2) (Rabs (-3)) (Rabs 4).
Proof.
  assert (Hrefl : reflection_scales (Vec3 2 (-3) 4)).
  { right; left. cbv beta iota delta [get3 v3_0 v3_1 v3_2]. lra. }
  split; [exact I | split; [exact Hrefl | ]].
  exact (proj1 (decompose_folds_reflection_into_sx (Vec3 2 (-3) 4) (Vec3 1 2 3)
                  (AxisAngles (Vec3 0.1 0.2 0.3)) None true I Hrefl)).
Defined.

(** ** Storage in single precision *)

Section Float32.

(** [Int_part] is the floor. *)
Lemma Int_part_bounds m : IZR (Int_part m) <= m < IZR (Int_part m) + 1.
Proof. destruct (base_Int_part m). lra. Qed.

Lemma Int_part_unique m n : IZR n <= m < IZR n + 1 -> Int_part m = n.
Proof.
  intros [H1 H2]. destruct (Int_part_bounds m) as [H3 H4].
  assert (Ha : (n < Int_part m + 1)%Z).
  { apply lt_IZR. rewrite plus_IZR. lra. }
  assert (Hb : (Int_part m < n + 1)%Z).
  { apply lt_IZR. rewrite plus_IZR. lra. }
  lia.
Qed.

Lemma round_half_even_cases m :
  (round_half_even m = Int_part m /\ m - IZR (Int_part m) <= / 2) \/
  (round_half_even m = (Int_part m + 1)%Z /\ / 2 <= m - IZR (Int_part m)).
Proof.
  unfold round_half_even. cbv zeta.
  destruct (Rlt_dec _ _); [left; split; [reflexivity | lra] | ].
  destruct (Rlt_dec _ _); [right; split; [reflexivity | lra] | ].
  destruct (Z.even _); [left | right]; split; try reflexivity; lra.
Qed.

Lemma round_half_even_near m :
  m - / 2 <= IZR (round_half_even m) <= m + / 2.
Proof.
  destruct (Int_part_bounds m).
  destruct (round_half_even_cases m) as [[-> H1] | [-> H1]];
    rewrite ?plus_IZR; lra.
Qed.

Lemma round_half_even_IZR k : round_half_even (IZR k) = k.
Proof.
  assert (E : Int_part (IZR k) = k) by (apply Int_part_unique; lra).
  unfold round_half_even. cbv zeta. rewrite E.
  destruct (Rlt_dec _ _); [reflexivity | lra].
Qed.

Lemma round_half_even_unique m n :
  IZR n - / 2 < m < IZR n + / 2 -> round_half_even m = n.
Proof.
  intros H. pose proof (round_half_even_near m) as Hn.
  assert (Ha : (n < round_half_even m + 1)%Z).
  { apply lt_IZR. rewrite plus_IZR. lra. }
  assert (Hb : (round_half_even m < n + 1)%Z).
  { apply lt_IZR. rewrite plus_IZR. lra. }
  lia.
Qed.

Lemma round_half_even_mono m m' :
  m <= m' -> (round_half_even m <= round_half_even m')%Z.
Proof.
  intros H.
  destruct (Int_part_bounds m) as [L U], (Int_part_bounds m') as [L' U'].
  assert (Hn : (Int_part m < Int_part m' + 1)%Z).
  { apply lt_IZR. rewrite plus_IZR. lra. }
  destruct (Z.eq_dec (Int_part m) (Int_part m')) as [E | E].
  - unfold round_half_even. cbv zeta. rewrite <- E.
    repeat match goal with
           | |- context [Rlt_dec ?a ?b] => destruct (Rlt_dec a b)
           end; try lia; try lra; destruct (Z.even _); lia.
  - destruct (round_half_even_cases m) as [[-> _] | [-> _]];
      destruct (round_half_even_cases m') as [[-> _] | [-> _]]; lia.
Qed.

(** Powers of two. *)
Lemma pow2_pos e : 0 < powerRZ 2 e.
Proof. apply powerRZ_lt. lra. Qed.

Lemma pow2_add a b : powerRZ 2 (a + b) = powerRZ 2 a * powerRZ 2 b.
Proof. apply powerRZ_add. lra. Qed.

Lemma pow2_IZR n : (0 <= n)%Z -> powerRZ 2 n = IZR (2 ^ n).
Proof.
  intros H. rewrite <- (Z2Nat.id n H) at 1.
  rewrite <- pow_powerRZ, pow_IZR, Z2Nat.id by exact H. reflexivity.
Qed.

Lemma pow2_le a b : (a <= b)%Z -> powerRZ 2 a <= powerRZ 2 b.
Proof.
  intros H. replace b with (a + (b - a))%Z by lia. rewrite pow2_add.
  pose proof (pow2_pos a) as Hp.
  assert (H1 : 1 <= powerRZ 2 (b - a)).
  { rewrite pow2_IZR by lia. apply IZR_le.
    pose proof (Z.pow_pos_nonneg 2 (b - a)). lia. }
  nra.
Qed.

Lemma pow2_div x e : x / powerRZ 2 e * powerRZ 2 e = x.
Proof. pose proof (pow2_pos e). field. lra. Qed.

(** The search for the exponent: it stays within its fuel, stops at the
    first binade that holds [x], and grows with [x]. *)
Lemma exponent_from_ge fuel : forall e x,
  (e <= float32_exponent_from fuel e x)%Z.
Proof.
  induction fuel as [ | fuel IH]; intros e x; cbn; [lia | ].
  destruct (Rlt_dec _ _); [lia | ]. specialize (IH (e + 1)%Z x). lia.
Qed.

Lemma exponent_from_le fuel : forall e x,
  (float32_exponent_from fuel e x <= e + Z.of_nat fuel)%Z.
Proof.
  induction fuel as [ | fuel IH]; intros e x; cbn [float32_exponent_from];
    [lia | ].
  destruct (Rlt_dec _ _); [lia | ]. specialize (IH (e + 1)%Z x). lia.
Qed.

Lemma exponent_from_lt fuel : forall e x,
  (float32_exponent_from fuel e x < e + Z.of_nat fuel)%Z ->
  x < powerRZ 2 (float32_exponent_from fuel e x + 24).
Proof.
  induction fuel as [ | fuel IH]; intros e x; cbn [float32_exponent_from];
    [lia | ].
  destruct (Rlt_dec _ _) as [Hlt | Hge]; [intros _; exact Hlt | ].
  intros H. apply IH. lia.
Qed.

Lemma exponent_from_gt fuel : forall e x,
  (e < float32_exponent_from fuel e x)%Z ->
  powerRZ 2 (float32_exponent_from fuel e x + 23) <= x.
Proof.
  induction fuel as [ | fuel IH]; intros e x; cbn [float32_exponent_from];
    [lia | ].
  destruct (Rlt_dec _ _) as [Hlt | Hge]; [lia | ].
  intros _.
  destruct (Z.eq_dec (float32_exponent_from fuel (e + 1) x) (e + 1)) as [E | E].
  - rewrite E. replace (e + 1 + 23)%Z with (e + 24)%Z by lia. lra.
  - apply IH. pose proof (exponent_from_ge fuel (e + 1) x). lia.
Qed.

Lemma exponent_from_upper fuel : forall e x k,
  (e <= k)%Z -> x < powerRZ 2 (k + 24) ->
  (float32_exponent_from fuel e x <= k)%Z.
Proof.
  induction fuel as [ | fuel IH]; intros e x k Hk Hx;
    cbn [float32_exponent_from]; [lia | ].
  destruct (Rlt_dec _ _) as [Hlt | Hge]; [lia | ].
  apply IH; [ | exact Hx].
  destruct (Z.eq_dec e k) as [-> | Hne]; [lra | lia].
Qed.

Lemma exponent_from_mono fuel : forall e x y,
  x <= y ->
  (float32_exponent_from fuel e x <= float32_exponent_from fuel e y)%Z.
Proof.
  induction fuel as [ | fuel IH]; intros e x y H;
    cbn [float32_exponent_from]; [lia | ].
  destruct (Rlt_dec x _) as [Hx | Hx]; destruct (Rlt_dec y _) as [Hy | Hy].
  - lia.
  - pose proof (exponent_from_ge fuel (e + 1) y). lia.
  - lra.
  - apply IH. exact H.
Qed.

Lemma float32_exponent_min x : (-149 <= float32_exponent x)%Z.
Proof. apply exponent_from_ge. Qed.

Lemma float32_exponent_max x : (float32_exponent x <= 104)%Z.
Proof. apply (exponent_from_le 253 (-149) x). Qed.

Lemma float32_exponent_upper x k :
  (-149 <= k)%Z -> x < powerRZ 2 (k + 24) -> (float32_exponent x <= k)%Z.
Proof. apply exponent_from_upper. Qed.

Lemma float32_exponent_mono x y :
  x <= y -> (float32_exponent x <= float32_exponent y)%Z.
Proof. apply exponent_from_mono. Qed.

Lemma float32_exponent_eq x k :
  (-149 <= k <= 104)%Z -> powerRZ 2 (k + 23) <= x < powerRZ 2 (k + 24) ->
  float32_exponent x = k.
Proof.
  intros [Hk Hk'] [Hlo Hhi].
  pose proof (float32_exponent_upper x k Hk Hhi) as Hle.
  destruct (Z.eq_dec (float32_exponent x) k) as [E | E]; [exact E | ].
  exfalso.
  assert (Hlt : (float32_exponent x < -149 + Z.of_nat 253)%Z)
    by lia.
  apply exponent_from_lt in Hlt. fold (float32_exponent x) in Hlt.
  pose proof (pow2_le (float32_exponent x + 24) (k + 23) ltac:(lia)). lra.
Qed.

Lemma float32_exponent_lower x k :
  (k <= 104)%Z -> powerRZ 2 (k + 23) <= x -> (k <= float32_exponent x)%Z.
Proof.
  intros Hk Hx.
  destruct (Z_le_gt_dec k (float32_exponent x)) as [H | H]; [exact H | ].
  exfalso.
  assert (Hlt : (float32_exponent x < -149 + Z.of_nat 253)%Z) by lia.
  apply exponent_from_lt in Hlt. fold (float32_exponent x) in Hlt.
  pose proof (pow2_le (float32_exponent x + 24) (k + 23) ltac:(lia)). lra.
Qed.

(** Storing keeps the order. *)
Lemma float32_abs_nonneg x : 0 <= x -> 0 <= float32_abs x.
Proof.
  intros H. unfold float32_abs. cbv zeta.
  pose proof (pow2_pos (float32_exponent x)) as Hp.
  apply Rmult_le_pos; [ | lra].
  apply IZR_le. rewrite <- (round_half_even_IZR 0).
  apply round_half_even_mono. apply Rmult_le_pos; [exact H | ].
  apply Rlt_le, Rinv_0_lt_compat, Hp.
Qed.

Lemma float32_abs_mono x y : 0 <= x -> x <= y -> float32_abs x <= float32_abs y.
Proof.
  intros H0 H. unfold float32_abs. cbv zeta.
  pose proof (float32_exponent_mono x y H) as He.
  destruct (Z.eq_dec (float32_exponent x) (float32_exponent y)) as [E | E].
  - rewrite <- E. pose proof (pow2_pos (float32_exponent x)) as Hp.
    apply Rmult_le_compat_r; [lra | ]. apply IZR_le.
    apply round_half_even_mono. apply Rmult_le_compat_r; [ | exact H].
    apply Rlt_le, Rinv_0_lt_compat, Hp.
  - set (ex := float32_exponent x) in *. set (ey := float32_exponent y) in *.
    pose proof (pow2_pos ex) as Hpx. pose proof (pow2_pos ey) as Hpy.
    apply Rle_trans with (powerRZ 2 (ex + 24)).
    + assert (Hx : x < powerRZ 2 (ex + 24)).
      { apply (exponent_from_lt 253 (-149) x).
        pose proof (float32_exponent_max y) as Hm. fold ey in Hm.
        fold (float32_exponent x). fold ex. lia. }
      rewrite pow2_add. rewrite (Rmult_comm (powerRZ 2 ex)).
      apply Rmult_le_compat_r; [lra | ].
      rewrite (pow2_IZR 24) by lia. apply IZR_le.
      rewrite <- (round_half_even_IZR (2 ^ 24)).
      apply round_half_even_mono. rewrite <- (pow2_IZR 24) by lia.
      apply Rmult_le_reg_r with (powerRZ 2 ex); [exact Hpx | ].
      rewrite pow2_div. rewrite Rmult_comm, <- pow2_add. lra.
    + assert (Hy : powerRZ 2 (ey + 23) <= y).
      { apply (exponent_from_gt 253 (-149) y).
        pose proof (float32_exponent_min x) as Hm. fold ex in Hm.
        fold (float32_exponent y). fold ey. lia. }
      apply Rle_trans with (powerRZ 2 (ey + 23)); [apply pow2_le; lia | ].
      rewrite pow2_add. rewrite (Rmult_comm (powerRZ 2 ey)).
      apply Rmult_le_compat_r; [lra | ].
      rewrite (pow2_IZR 23) by lia. apply IZR_le.
      rewrite <- (round_half_even_IZR (2 ^ 23)).
      apply round_half_even_mono. rewrite <- (pow2_IZR 23) by lia.
      apply Rmult_le_reg_r with (powerRZ 2 ey); [exact Hpy | ].
      rewrite pow2_div. rewrite Rmult_comm, <- pow2_add. lra.
Qed.

Lemma float32_mono x y : x <= y -> float32 x <= float32 y.
Proof.
  intros H. unfold float32.
  destruct (Rlt_dec x 0) as [Hx | Hx]; destruct (Rlt_dec y 0) as [Hy | Hy].
  - apply Ropp_le_contravar. apply float32_abs_mono; lra.
  - pose proof (float32_abs_nonneg (- x) ltac:(lra)).
    pose proof (float32_abs_nonneg y ltac:(lra)). lra.
  - lra.
  - apply float32_abs_mono; lra.
Qed.

(** Storing moves a number of magnitude below [2 ^ (k + 24)] by at most
    half of the last bit, [2 ^ (k - 1)]. *)
Lemma float32_abs_error x k :
  (-149 <= k)%Z -> 0 <= x < powerRZ 2 (k + 24) ->
  Rabs (float32_abs x - x) <= powerRZ 2 (k - 1).
Proof.
  intros Hk [H0 Hx].
  pose proof (float32_exponent_upper x k Hk Hx) as He.
  unfold float32_abs. cbv zeta. set (e := float32_exponent x) in *.
  pose proof (pow2_pos e) as Hp.
  pose proof (round_half_even_near (x / powerRZ 2 e)) as Hn.
  rewrite <- (pow2_div x e) at 2.
  rewrite <- Rmult_minus_distr_r, Rabs_mult, (Rabs_pos_eq (powerRZ 2 e))
    by lra.
  apply Rle_trans with (/ 2 * powerRZ 2 e).
  - apply Rmult_le_compat_r; [lra | ]. apply Rabs_le. lra.
  - replace (/ 2) with (powerRZ 2 (-1)) by (simpl; lra).
    rewrite <- pow2_add. apply pow2_le. lia.
Qed.

Lemma float32_error x k :
  (-149 <= k)%Z -> Rabs x < powerRZ 2 (k + 24) ->
  Rabs (float32 x - x) <= powerRZ 2 (k - 1).
Proof.
  intros Hk Hx. unfold float32.
  destruct (Rlt_dec x 0) as [Hneg | Hpos].
  - rewrite Rabs_left in Hx by exact Hneg.
    pose proof (float32_abs_error (- x) k Hk ltac:(lra)) as H.
    replace (- float32_abs (- x) - x) with (- (float32_abs (- x) - - x))
      by ring.
    rewrite Rabs_Ropp. exact H.
  - rewrite Rabs_pos_eq in Hx by lra.
    apply float32_abs_error; [exact Hk | lra].
Qed.

(** A multiple [n * 2 ^ j] with [|n| < 2 ^ 24] and [j >= -149] is stored
    as it is. *)
Lemma float32_abs_exact n j :
  (0 <= n < 2 ^ 24)%Z -> (-149 <= j)%Z ->
  float32_abs (IZR n * powerRZ 2 j) = IZR n * powerRZ 2 j.
Proof.
  intros Hn Hj. set (x := IZR n * powerRZ 2 j).
  pose proof (pow2_pos j) as Hpj.
  assert (Hx : x < powerRZ 2 (j + 24)).
  { unfold x. rewrite pow2_add, (Rmult_comm (powerRZ 2 j)).
    apply Rmult_lt_compat_r; [exact Hpj | ].
    rewrite (pow2_IZR 24) by lia. apply IZR_lt. lia. }
  pose proof (float32_exponent_upper x j Hj Hx) as He.
  unfold float32_abs. cbv zeta. set (e := float32_exponent x) in *.
  pose proof (pow2_pos e) as Hp.
  assert (E : x / powerRZ 2 e = IZR (n * 2 ^ (j - e))).
  { rewrite mult_IZR, <- pow2_IZR by lia. unfold x.
    replace j with ((j - e) + e)%Z at 1 by lia. rewrite pow2_add.
    field. lra. }
  rewrite E, round_half_even_IZR, <- E. apply pow2_div.
Qed.

Lemma float32_exact n j :
  (Z.abs n < 2 ^ 24)%Z -> (-149 <= j)%Z ->
  float32 (IZR n * powerRZ 2 j) = IZR n * powerRZ 2 j.
Proof.
  intros Hn Hj. pose proof (pow2_pos j) as Hp. unfold float32.
  destruct (Rlt_dec _ _) as [Hneg | Hpos].
  - assert (Hn0 : (n < 0)%Z).
    { apply lt_IZR. apply Rmult_lt_reg_r with (powerRZ 2 j); [exact Hp | ].
      lra. }
    replace (- (IZR n * powerRZ 2 j)) with (IZR (- n) * powerRZ 2 j)
      by (rewrite opp_IZR; ring).
    rewrite float32_abs_exact by lia. rewrite opp_IZR. ring.
  - assert (Hn0 : (0 <= n)%Z).
    { apply le_IZR. apply Rmult_le_reg_r with (powerRZ 2 j); [exact Hp | ].
      lra. }
    apply float32_abs_exact; lia.
Qed.

(** Halves of small integers are stored as they are. *)
Lemma float32_half n :
  (Z.abs n < 2 ^ 24)%Z -> float32 (IZR n / 2) = IZR n / 2.
Proof.
  intros Hn. replace (IZR n / 2) with (IZR n * powerRZ 2 (-1))
    by (simpl; lra).
  apply float32_exact; [exact Hn | lia].
Qed.

Lemma float32_opp x : float32 (- x) = - float32 x.
Proof.
  assert (E0 : float32_abs 0 = 0).
  { replace 0 with (IZR 0 * powerRZ 2 0) at 1 by (simpl; lra).
    rewrite float32_abs_exact by (cbn; lia). simpl. lra. }
  unfold float32.
  destruct (Rlt_dec (- x) 0); destruct (Rlt_dec x 0); try lra.
  - rewrite Ropp_involutive. reflexivity.
  - replace x with 0 by lra. rewrite Ropp_0, E0. lra.
Qed.

Lemma float32_half_eq x n :
  x = IZR n / 2 -> (Z.abs n < 2 ^ 24)%Z -> float32 x = x.
Proof. intros -> Hn. apply float32_half, Hn. Qed.

(** A number of magnitude below [2048] moves by at most [2 ^ -14] when it
    is stored. *)
Lemma float32_error_2048 x :
  Rabs x < 2048 -> - / 16384 <= float32 x - x <= / 16384.
Proof.
  intros H. pose proof (float32_error x (-13) ltac:(lia)) as E.
  replace (powerRZ 2 (-13 + 24)) with 2048 in E by (simpl; lra).
  replace (powerRZ 2 (-13 - 1)) with (/ 16384) in E by (simpl; lra).
  specialize (E H). unfold Rabs in E.
  destruct (Rcase_abs (float32 x - x)); lra.
Qed.

(** The value stored for a positive [x] whose binade and nearest multiple
    of the last bit are known. *)
Lemma float32_nearest x e n :
  (-149 <= e <= 104)%Z -> powerRZ 2 (e + 23) <= x < powerRZ 2 (e + 24) ->
  IZR n - / 2 < x / powerRZ 2 e < IZR n + / 2 ->
  float32 x = IZR n * powerRZ 2 e.
Proof.
  intros He Hx Hn. pose proof (pow2_pos (e + 23)).
  unfold float32. destruct (Rlt_dec x 0); [lra | ].
  unfold float32_abs. cbv zeta.
  rewrite (float32_exponent_eq x e He Hx).
  rewrite (round_half_even_unique _ n Hn). reflexivity.
Qed.

(** A number [y] is stored as the single-precision number [x] when it is
    closer to [x] than half of the last bit of the binades [y] can lie
    in. *)
Lemma float32_absorbs x y n j k :
  (-149 <= k <= j)%Z -> (k <= 104)%Z ->
  x = IZR n * powerRZ 2 j ->
  powerRZ 2 (k + 23) <= y < powerRZ 2 (j + 24) ->
  Rabs (y - x) < powerRZ 2 (k - 1) ->
  float32 y = x.
Proof.
  intros [Hk Hkj] Hk' Hx [Hlo Hhi] Hd.
  pose proof (pow2_pos (k + 23)).
  pose proof (float32_exponent_lower y k Hk' Hlo) as He1.
  pose proof (float32_exponent_upper y j ltac:(lia) Hhi) as He2.
  unfold float32. destruct (Rlt_dec y 0); [lra | ].
  unfold float32_abs. cbv zeta. set (e := float32_exponent y) in *.
  pose proof (pow2_pos e) as Hp.
  assert (E : x / powerRZ 2 e = IZR (n * 2 ^ (j - e))).
  { rewrite mult_IZR, <- pow2_IZR by lia. rewrite Hx.
    replace j with ((j - e) + e)%Z at 1 by lia. rewrite pow2_add.
    field. lra. }
  rewrite (round_half_even_unique _ (n * 2 ^ (j - e))).
  - rewrite <- E. apply pow2_div.
  - rewrite <- E.
    assert (Hq : Rabs (y - x) < / 2 * powerRZ 2 e).
    { apply Rlt_le_trans with (1 := Hd).
      replace (/ 2) with (powerRZ 2 (-1)) by (simpl; lra).
      rewrite <- pow2_add. apply pow2_le. lia. }
    apply Rabs_def2 in Hq. destruct Hq as [Hq1 Hq2].
    split.
    + apply Rmult_lt_reg_r with (powerRZ 2 e); [exact Hp | ].
      rewrite pow2_div, Rmult_minus_distr_r, pow2_div. lra.
    + apply Rmult_lt_reg_r with (powerRZ 2 e); [exact Hp | ].
      rewrite pow2_div, Rmult_plus_distr_r, pow2_div. lra.
Qed.

End Float32.

(** ** Points through an affine *)

Ltac unfold_points :=
  cbv beta iota zeta delta
    [transform _fillPoints bind fill_loop assign_column mapM map combine
     firstn skipn nth app List.length Nat.eqb negb dot_row rows_of_mat3
     list_of_vec3 dotl addl linear_part translation_part head3
     reduce_axis0 seq fold_left world_row column_reduce corner_points
     v3_0 v3_1 v3_2 v4_0 v4_1 v4_2 v4_3 m3_0 m3_1 m3_2 m4_0 m4_1 m4_2 m4_3].

Lemma norm_index_3_2 : norm_index 3 2 = Ok 2%nat.
Proof. reflexivity. Qed.

Lemma scale2_shift_z_compose :
  compose (Vec3 2 2 2) (Vec3 0 0 1) (RotMat eye3) None = scale2_shift_z.
Proof.
  unfold compose, scale2_shift_z. unfold_arrays. f_equal; f_equal; ring.
Qed.

(** C6.  The point [(5,)] with [axes = 2] becomes the row [(0, 0, 5)], and
    [transform] through the affine that scales by 2 and translates by
    [(0, 0, 1)] returns the scalar [11]. *)
Theorem transform_axis_projection_example :
  _fillPoints (Arr1 [5]) (AxInt 2) = Ok (Arr2 3 [[0; 0; 5]]) /\
  transform (Arr1 [5]) scale2_shift_z (AxInt 2) false = Ok (Scalar 11).
Proof.
  split.
  - unfold_points. rewrite norm_index_3_2. unfold_points. reflexivity.
  - unfold scale2_shift_z. unfold_points. rewrite norm_index_3_2.
    unfold_points. do 2 f_equal. lra.
Qed.

Section AxisBoundsShape.

Lemma transform_rows rows xform :
  transform (Arr2 3 rows) xform AxNone false
  = Ok (Arr2 3 (map (world_row xform) rows)).
Proof. reflexivity. Qed.

Lemma mapM_length {A B : Type} (f : A -> result B) (l : list A) :
  forall bs, mapM f l = Ok bs -> List.length bs = List.length l.
Proof.
  induction l as [ | a l IH]; intros bs H; simpl in H.
  - injection H as <-. reflexivity.
  - destruct (f a) as [b | e]; simpl in H; [ | discriminate].
    destruct (mapM f l) as [bs' | e]; simpl in H; [ | discriminate].
    injection H as <-. simpl. f_equal. apply IH. reflexivity.
Qed.

Lemma map_nth_seq {A B : Type} (g : A -> B) (d : A) (l : list A) :
  map (fun k => g (nth k l d)) (seq 0 (List.length l)) = map g l.
Proof.
  induction l as [ | a l IH]; [reflexivity | ].
  simpl. f_equal. rewrite <- seq_shift, map_map. exact IH.
Qed.

Lemma nth_map_in {A : Type} (g : A -> R) (d : A) (l : list A) :
  forall k, (k < List.length l)%nat -> nth k (map g l) 0 = g (nth k l d).
Proof.
  induction l as [ | a l IH]; intros [ | k] Hk; simpl in *;
    try lia; [reflexivity | apply IH; lia].
Qed.

Lemma reduce_axis0_selected op (js : list nat) (n : nat) row rest :
  n = List.length js ->
  reduce_axis0 op n
    (map (fun r : list R => map (fun j => nth j r 0) js) (row :: rest))
  = Ok (map (column_reduce op (row :: rest)) js).
Proof.
  intros ->. unfold reduce_axis0. cbn [map]. f_equal.
  rewrite <- (map_nth_seq (column_reduce op (row :: rest)) 0%nat js).
  apply map_ext_in. intros k Hk. apply in_seq in Hk.
  unfold column_reduce. rewrite map_map.
  rewrite (nth_map_in _ 0%nat js) by lia.
  f_equal. apply map_ext. intros r.
  apply (nth_map_in (fun j => nth j r 0) 0%nat js). lia.
Qed.

End AxisBoundsShape.

Section AxisBoundsKeywords.

Lemma origin_check origin :
  (((if (lower origin =? "center")%string then "centre"%string
     else lower origin) =? "centre")%string
   || ((if (lower origin =? "center")%string then "centre"%string
        else lower origin) =? "corner")%string) = true
  <-> recognised_origin origin.
Proof.
  unfold recognised_origin.
  destruct (String.eqb_spec (lower origin) "center") as [E | E].
  - rewrite E. simpl. split; [intros _; right; left; reflexivity | reflexivity].
  - rewrite orb_true_iff, !String.eqb_eq. tauto.
Qed.

Lemma boundary_check boundary :
  (boundary_in boundary ["low"; "high"; "both"]%string
   || match boundary with None => true | Some _ => false end) = true
  <-> recognised_boundary boundary.
Proof.
  unfold recognised_boundary, boundary_in.
  destruct boundary as [b | ].
  - cbn [existsb]. rewrite !orb_false_r, !orb_true_iff, !String.eqb_eq.
    split.
    + intros [-> | [-> | ->]]; auto.
    + intros [H | [H | [H | H]]]; try discriminate; injection H as ->; auto.
  - simpl. split; auto.
Qed.

Lemma bounds_of_rows xform (axes : list Z) (scalar : bool) row rest :
  (tx <- transform (Arr2 3 (row :: rest)) xform AxNone false ;;
   match tx with
   | Arr2 ncols rows =>
       js <- mapM (norm_index ncols) axes ;;
       let sel := map (fun row => map (fun j => nth j row 0) js) rows in
       lo <- reduce_axis0 Rmin (List.length axes) sel ;;
       hi <- reduce_axis0 Rmax (List.length axes) sel ;;
       if scalar then Ok (ScalarBounds (nth 0 lo 0) (nth 0 hi 0))
       else Ok (ArrayBounds lo hi)
   | _ => Raise IndexError
   end)
  = (js <- mapM (norm_index 3) axes ;;
     let rows := map (world_row xform) (row :: rest) in
     let lo := map (column_reduce Rmin rows) js in
     let hi := map (column_reduce Rmax rows) js in
     Ok (if scalar then ScalarBounds (nth 0 lo 0) (nth 0 hi 0)
         else ArrayBounds lo hi)).
Proof.
  rewrite transform_rows. cbn [bind].
  destruct (mapM (norm_index 3) axes) as [js | e] eqn:Hjs; cbn [bind];
    [ | reflexivity].
  apply mapM_length in Hjs. cbv zeta.
  change (map (world_row xform) (row :: rest))
    with (world_row xform row :: map (world_row xform) rest).
  rewrite !reduce_axis0_selected by (symmetry; exact Hjs).
  cbn [bind]. destruct scalar; reflexivity.
Qed.

(** With accepted keywords, [axisBounds] is [bounds_of_corners]. *)
Lemma axisBounds_recognised shape xform axes origin boundary offset :
  recognised_origin origin -> recognised_boundary boundary ->
  axisBounds shape xform axes origin boundary offset
  = bounds_of_corners shape xform axes (centre_origin origin)
      (boundary_in boundary ["low"; "both"]%string)
      (boundary_in boundary ["high"; "both"]%string) offset.
Proof.
  intros Ho Hb. apply origin_check in Ho. apply boundary_check in Hb.
  unfold axisBounds. cbv zeta. rewrite Ho, Hb. cbn [negb].
  fold (centre_origin origin).
  unfold bounds_of_corners, low_coord, high_coord.
  destruct shape as [[nx ny] nz].
  destruct (centre_origin origin),
    (boundary_in boundary ["low"; "both"]%string),
    (boundary_in boundary ["high"; "both"]%string);
    (destruct axes as [ | ax | l];
     [ exact (bounds_of_rows xform [0; 1; 2]%Z false _ _)
     | exact (bounds_of_rows xform [ax] true _ _)
     | exact (bounds_of_rows xform l false _ _) ]).
Qed.

End AxisBoundsKeywords.

(** ** Minimum and maximum over the corner images *)

Section FoldMinMax.

Lemma fold_max_in l : forall x, In (fold_left Rmax l x) (x :: l).
Proof.
  induction l as [ | a l IH]; intros x; [left; reflexivity | ].
  cbn [fold_left]. destruct (IH (Rmax x a)) as [H | H].
  - rewrite <- H. unfold Rmax. destruct (Rle_dec x a); simpl; auto.
  - right; right; exact H.
Qed.

Lemma fold_min_in l : forall x, In (fold_left Rmin l x) (x :: l).
Proof.
  induction l as [ | a l IH]; intros x; [left; reflexivity | ].
  cbn [fold_left]. destruct (IH (Rmin x a)) as [H | H].
  - rewrite <- H. unfold Rmin. destruct (Rle_dec x a); simpl; auto.
  - right; right; exact H.
Qed.

Lemma fold_max_upper l : forall x v, In v (x :: l) -> v <= fold_left Rmax l x.
Proof.
  induction l as [ | a l IH]; intros x v Hv; cbn [fold_left].
  - destruct Hv as [<- | []]. lra.
  - destruct Hv as [<- | [<- | Hv]].
    + apply Rle_trans with (Rmax x a);
        [apply Rmax_l | apply IH; left; reflexivity].
    + apply Rle_trans with (Rmax x a);
        [apply Rmax_r | apply IH; left; reflexivity].
    + apply IH. right; exact Hv.
Qed.

Lemma fold_min_lower l : forall x v, In v (x :: l) -> fold_left Rmin l x <= v.
Proof.
  induction l as [ | a l IH]; intros x v Hv; cbn [fold_left].
  - destruct Hv as [<- | []]. lra.
  - destruct Hv as [<- | [<- | Hv]].
    + apply Rle_trans with (Rmin x a);
        [apply IH; left; reflexivity | apply Rmin_l].
    + apply Rle_trans with (Rmin x a);
        [apply IH; left; reflexivity | apply Rmin_r].
    + apply IH. right; exact Hv.
Qed.

Lemma fold_min_le_max l x : fold_left Rmin l x <= fold_left Rmax l x.
Proof.
  apply Rle_trans with x;
    [apply fold_min_lower | apply fold_max_upper]; left; reflexivity.
Qed.

Lemma column_reduce_min_le_max rows j :
  column_reduce Rmin rows j <= column_reduce Rmax rows j.
Proof.
  destruct rows as [ | row rest]; simpl; [lra | apply fold_min_le_max].
Qed.

End FoldMinMax.

Section AxisBoundsResults.

Lemma mapM_norm_index_error n l e :
  mapM (norm_index n) l = Raise e -> e = IndexError.
Proof.
  induction l as [ | a l IH]; simpl; [discriminate | ].
  unfold norm_index at 1.
  destruct ((0 <=? a) && (a <? Z.of_nat n))%Z; cbn [bind].
  - destruct (mapM (norm_index n) l); cbn [bind]; [discriminate | ].
    intros H. apply IH. exact H.
  - destruct ((- Z.of_nat n <=? a) && (a <? 0))%Z; cbn [bind].
    + destruct (mapM (norm_index n) l); cbn [bind]; [discriminate | ].
      intros H. apply IH. exact H.
    + intros H. injection H as <-. reflexivity.
Qed.

Lemma norm_index_in_range ax :
  axis_in_range ax -> exists j, norm_index 3 ax = Ok j /\ (j < 3)%nat.
Proof.
  unfold axis_in_range, norm_index. intros H.
  destruct (Z.leb_spec 0 ax); destruct (Z.ltb_spec ax (Z.of_nat 3));
    cbn [andb]; try lia.
  - exists (Z.to_nat ax). split; [reflexivity | lia].
  - destruct (Z.leb_spec (- Z.of_nat 3) ax); destruct (Z.ltb_spec ax 0);
      cbn [andb]; try lia.
    exists (Z.to_nat (ax + Z.of_nat 3)). split; [reflexivity | lia].
Qed.

Lemma mapM_norm_index_in_range l :
  Forall axis_in_range l ->
  exists js, mapM (norm_index 3) l = Ok js /\ Forall (fun j => (j < 3)%nat) js.
Proof.
  induction 1 as [ | ax l Hax _ IH].
  - exists []. split; [reflexivity | constructor].
  - destruct (norm_index_in_range ax Hax) as (j & Hj & Hlt).
    destruct IH as (js & Hjs & Hall).
    exists (j :: js). simpl. rewrite Hj, Hjs. split; [reflexivity | ].
    constructor; assumption.
Qed.

Lemma axisBounds_ok_recognised shape xform axes origin boundary offset b :
  axisBounds shape xform axes origin boundary offset = Ok b ->
  recognised_origin origin /\ recognised_boundary boundary.
Proof.
  unfold axisBounds. cbv zeta. intros H.
  rewrite <- origin_check, <- boundary_check.
  destruct (_ || _)%bool; [ | discriminate H]. cbn [negb] in H.
  destruct (_ || _)%bool; [ | discriminate H]. split; reflexivity.
Qed.



Lemma bounds_of_corners_not_value_error shape xform axes c l h offset :
  ~ is_value_error (bounds_of_corners shape xform axes c l h offset).
Proof.
  unfold bounds_of_corners, is_value_error. destruct shape as [[nx ny] nz].
  destruct (mapM (norm_index 3) (requested_axes axes)) as [js | e] eqn:Hjs;
    cbn [bind]; intros [msg H]; [discriminate H | ].
  apply mapM_norm_index_error in Hjs. subst e. discriminate H.
Qed.

(** The three ways through the keyword checks of [axisBounds]. *)
Lemma axisBounds_cases shape xform axes origin boundary offset :
  (~ recognised_origin origin /\
   is_value_error (axisBounds shape xform axes origin boundary offset)) \/
  (recognised_origin origin /\ ~ recognised_boundary boundary /\
   is_value_error (axisBounds shape xform axes origin boundary offset)) \/
  (recognised_origin origin /\ recognised_boundary boundary /\
   axisBounds shape xform axes origin boundary offset
   = bounds_of_corners shape xform axes (centre_origin origin)
       (boundary_in boundary ["low"; "both"]%string)
       (boundary_in boundary ["high"; "both"]%string) offset).
Proof.
  pose proof (origin_check origin) as Ho.
  pose proof (boundary_check boundary) as Hb.
  destruct (_ || _)%bool eqn:Eo in Ho.
  - destruct (_ || _)%bool eqn:Eb in Hb.
    + right; right. split; [tauto | split; [tauto | ]].
      apply axisBounds_recognised; tauto.
    + right; left. split; [tauto | split].
      * intros H. apply Hb in H. discriminate H.
      * unfold axisBounds, is_value_error. cbv zeta. rewrite Eo, Eb.
        cbn [negb]. eexists. reflexivity.
  - left. split.
    + intros H. apply Ho in H. discriminate H.
    + unfold axisBounds, is_value_error. cbv zeta. rewrite Eo.
      cbn [negb]. eexists. reflexivity.
Qed.

End AxisBoundsResults.

(** C7.  [axisBounds] raises [ValueError] exactly when [origin], lowercased
    and with "center" read as "centre", is neither "centre" nor "corner", or
    [boundary] is none of "low", "high", "both" and [None]. *)
Theorem axisBounds_value_error_iff shape xform axes origin boundary offset :
  is_value_error (axisBounds shape xform axes origin boundary offset)
  <-> ~ recognised_origin origin \/ ~ recognised_boundary boundary.
Proof.
  destruct (axisBounds_cases shape xform axes origin boundary offset)
    as [[Ho Herr] | [(Ho & Hb & Herr) | (Ho & Hb & Heq)]].
  - split; [intros _; left; exact Ho | intros _; exact Herr].
  - split; [intros _; right; exact Hb | intros _; exact Herr].
  - rewrite Heq. split.
    + intros H. exfalso.
      exact (bounds_of_corners_not_value_error _ _ _ _ _ _ _ H).
    + tauto.
Qed.

Lemma bounds_lo_result axes (js : list nat) (f g : nat -> R) :
  List.length js = List.length (requested_axes axes) ->
  bounds_lo (if scalar_request axes
             then ScalarBounds (nth 0 (map f js) 0) (nth 0 (map g js) 0)
             else ArrayBounds (map f js) (map g js)) = map f js.
Proof.
  intros Hlen. destruct axes as [ | ax | l]; cbn in *; try reflexivity.
  destruct js as [ | j [ | j' js]]; try discriminate Hlen. reflexivity.
Qed.

Lemma bounds_hi_result axes (js : list nat) (f g : nat -> R) :
  List.length js = List.length (requested_axes axes) ->
  bounds_hi (if scalar_request axes
             then ScalarBounds (nth 0 (map f js) 0) (nth 0 (map g js) 0)
             else ArrayBounds (map f js) (map g js)) = map g js.
Proof.
  intros Hlen. destruct axes as [ | ax | l]; cbn in *; try reflexivity.
  destruct js as [ | j [ | j' js]]; try discriminate Hlen. reflexivity.
Qed.

Lemma Forall2_min_le_max rows js :
  Forall2 Rle (map (column_reduce Rmin rows) js)
              (map (column_reduce Rmax rows) js).
Proof.
  induction js as [ | j js IH]; simpl; constructor;
    [apply column_reduce_min_le_max | exact IH].
Qed.

(** C10.  Whenever [axisBounds] returns, the low bound is at most the high
    bound on every requested axis, with one pair of bounds per requested
    axis; and it does return for accepted keywords and axes inside the
    array. *)
Theorem axisBounds_low_le_high shape xform axes origin boundary offset :
  (recognised_origin origin -> recognised_boundary boundary ->
   Forall axis_in_range (requested_axes axes) ->
   exists b, axisBounds shape xform axes origin boundary offset = Ok b) /\
  (forall b,
     axisBounds shape xform axes origin boundary offset = Ok b ->
     Forall2 Rle (bounds_lo b) (bounds_hi b) /\
     List.length (bounds_lo b) = List.length (requested_axes axes)).
Proof.
  split.
  - intros Ho Hb Hax. rewrite axisBounds_recognised by assumption.
    unfold bounds_of_corners. destruct shape as [[nx ny] nz].
    destruct (mapM_norm_index_in_range _ Hax) as (js & -> & _).
    cbn [bind]. eexists. reflexivity.
  - intros b Hres.
    destruct (axisBounds_ok_recognised _ _ _ _ _ _ _ Hres) as [Ho Hb].
    rewrite axisBounds_recognised in Hres by assumption.
    unfold bounds_of_corners in Hres. destruct shape as [[nx ny] nz].
    destruct (mapM (norm_index 3) (requested_axes axes)) as [js | e] eqn:Hjs;
      cbn [bind] in Hres; [ | discriminate Hres].
    cbv zeta in Hres. injection Hres as <-.
    apply mapM_length in Hjs.
    rewrite bounds_lo_result, bounds_hi_result by exact Hjs.
    split; [apply Forall2_min_le_max | rewrite length_map; exact Hjs].
Qed.

Lemma axisBounds_low_le_high_witness :
  exists b,
    axisBounds (10, 10, 10)%Z eye4 (AxInt 2) "centre"%string
      (Some "both"%string) 1e-4 = Ok b
    /\ Forall2 Rle (bounds_lo b) (bounds_hi b).
Proof.
  destruct (axisBounds_low_le_high (10, 10, 10)%Z eye4 (AxInt 2)
              "centre"%string (Some "both"%string) 1e-4) as [Hret Hle].
  destruct Hret as [b Hb].
  - left. reflexivity.
  - right; right; left. reflexivity.
  - repeat constructor; unfold axis_in_range; lia.
  - exists b. split; [exact Hb | exact (proj1 (Hle b Hb))].
Defined.


(** ** The box of the corner images *)

Section CornerImages.

Lemma Rmax_cases a b : Rmax a b = a \/ Rmax a b = b.
Proof. unfold Rmax. destruct (Rle_dec a b); auto. Qed.

Lemma Rmin_cases a b : Rmin a b = a \/ Rmin a b = b.
Proof. unfold Rmin. destruct (Rle_dec a b); auto. Qed.

Variables (w0 w1 w2 t : R).

Let v := axis_value w0 w1 w2 t.

Lemma corners_max x0 y0 z0 x y z :
  fold_left Rmax
    [v x0 y0 z; v x0 y z0; v x0 y z; v x y0 z0; v x y0 z; v x y z0; v x y z]
    (v x0 y0 z0)
  = Rmax (w0 * x0) (w0 * x) + Rmax (w1 * y0) (w1 * y)
    + Rmax (w2 * z0) (w2 * z) + t.
Proof.
  pose proof (Rmax_l (w0 * x0) (w0 * x)).
  pose proof (Rmax_r (w0 * x0) (w0 * x)).
  pose proof (Rmax_l (w1 * y0) (w1 * y)).
  pose proof (Rmax_r (w1 * y0) (w1 * y)).
  pose proof (Rmax_l (w2 * z0) (w2 * z)).
  pose proof (Rmax_r (w2 * z0) (w2 * z)).
  apply Rle_antisym.
  - match goal with |- fold_left Rmax ?l ?x <= _ =>
      pose proof (fold_max_in l x) as Hin end.
    cbn [In] in Hin.
    repeat (destruct Hin as [Hin | Hin];
            [rewrite <- Hin; unfold v, axis_value; lra | ]).
    contradiction.
  - destruct (Rmax_cases (w0 * x0) (w0 * x)) as [-> | ->];
      destruct (Rmax_cases (w1 * y0) (w1 * y)) as [-> | ->];
      destruct (Rmax_cases (w2 * z0) (w2 * z)) as [-> | ->];
      match goal with
      | |- ?a0 * ?a + ?b0 * ?b + ?c0 * ?c + _ <= _ =>
          apply Rle_trans with (v a b c);
            [unfold v, axis_value; lra
            | apply fold_max_upper; cbn [In]; tauto]
      end.
Qed.

Lemma corners_min x0 y0 z0 x y z :
  fold_left Rmin
    [v x0 y0 z; v x0 y z0; v x0 y z; v x y0 z0; v x y0 z; v x y z0; v x y z]
    (v x0 y0 z0)
  = Rmin (w0 * x0) (w0 * x) + Rmin (w1 * y0) (w1 * y)
    + Rmin (w2 * z0) (w2 * z) + t.
Proof.
  pose proof (Rmin_l (w0 * x0) (w0 * x)).
  pose proof (Rmin_r (w0 * x0) (w0 * x)).
  pose proof (Rmin_l (w1 * y0) (w1 * y)).
  pose proof (Rmin_r (w1 * y0) (w1 * y)).
  pose proof (Rmin_l (w2 * z0) (w2 * z)).
  pose proof (Rmin_r (w2 * z0) (w2 * z)).
  apply Rle_antisym.
  - destruct (Rmin_cases (w0 * x0) (w0 * x)) as [-> | ->];
      destruct (Rmin_cases (w1 * y0) (w1 * y)) as [-> | ->];
      destruct (Rmin_cases (w2 * z0) (w2 * z)) as [-> | ->];
      match goal with
      | |- _ <= ?a0 * ?a + ?b0 * ?b + ?c0 * ?c + _ =>
          apply Rle_trans with (v a b c);
            [apply fold_min_lower; cbn [In]; tauto
            | unfold v, axis_value; lra]
      end.
  - match goal with |- _ <= fold_left Rmin ?l ?x =>
      pose proof (fold_min_in l x) as Hin end.
    cbn [In] in Hin.
    repeat (destruct Hin as [Hin | Hin];
            [rewrite <- Hin; unfold v, axis_value; lra | ]).
    contradiction.
Qed.

End CornerImages.

Section Shrinking.

Variables (w a b a' b' : R).
Hypothesis Hlow : a < a' < b.
Hypothesis Hhigh : a < b' < b.



End Shrinking.

Section StoredCoordinates.

(** The corners that are not moved are stored as they are: [-0.5], [0],
    and [n] or [n - 0.5] for a dimension [n] below [2 ^ 23]. *)
Lemma low_coord_plain centre offset :
  low_coord centre false offset = if centre then -0.5 else 0.
Proof.
  unfold low_coord. cbv zeta. destruct centre.
  - apply (float32_half_eq _ (-1)); [lra | reflexivity].
  - apply (float32_half_eq _ 0); [lra | reflexivity].
Qed.

Lemma high_coord_plain centre offset n :
  (Z.abs n < 8388608)%Z ->
  high_coord centre false offset n = if centre then IZR n - 0.5 else IZR n.
Proof.
  intros Hn. unfold high_coord. cbv zeta. destruct centre.
  - apply (float32_half_eq _ (2 * n - 1));
      [rewrite minus_IZR, mult_IZR; lra | ].
    change (2 ^ 24)%Z with 16777216%Z. lia.
  - apply (float32_half_eq _ (2 * n)); [rewrite mult_IZR; lra | ].
    change (2 ^ 24)%Z with 16777216%Z. lia.
Qed.


(** From 2049 voxels along an axis on, an offset of at most [1e-4] is lost
    when the high corner is stored: half of the last bit is [2 ^ -13] or
    more there. *)
Lemma stored_high_absorbed centre offset n :
  0 <= offset <= 1e-4 -> (2049 <= n < 8388608)%Z ->
  high_coord centre true offset n = high_coord centre false offset n.
Proof.
  intros Hoff [Hn1 Hn2]. rewrite high_coord_plain by lia.
  unfold high_coord. cbv zeta.
  apply IZR_le in Hn1. apply IZR_lt in Hn2.
  assert (P11 : powerRZ 2 (-12 + 23) = 2048) by (simpl; lra).
  assert (P23 : powerRZ 2 (-1 + 24) = 8388608) by (simpl; lra).
  assert (P13 : powerRZ 2 (-12 - 1) = / 8192) by (simpl; lra).
  assert (P1 : powerRZ 2 (-1) = / 2) by (simpl; lra).
  destruct centre.
  - apply (float32_absorbs _ _ (2 * n - 1) (-1) (-12)); try lia.
    + rewrite minus_IZR, mult_IZR, P1. lra.
    + rewrite P11, P23. lra.
    + rewrite P13. apply Rabs_def1; lra.
  - apply (float32_absorbs _ _ (2 * n) (-1) (-12)); try lia.
    + rewrite mult_IZR, P1. lra.
    + rewrite P11, P23. lra.
    + rewrite P13. apply Rabs_def1; lra.
Qed.

End StoredCoordinates.

Section InnerOuterBounds.

Lemma column_reduce_corners op xform j x0 y0 z0 x y z :
  (j < 3)%nat ->
  column_reduce op (map (world_row xform) (corner_points x0 y0 z0 x y z)) j
  = let w := row3 (linear_part xform) j in
    let v := axis_value (v3_0 w) (v3_1 w) (v3_2 w)
               (get3 (translation_part xform) j) in
    fold_left op
      [v x0 y0 z; v x0 y z0; v x0 y z; v x y0 z0; v x y0 z; v x y z0;
       v x y z]
      (v x0 y0 z0).
Proof.
  intros Hj. destruct j as [ | [ | [ | j]]];
    [reflexivity | reflexivity | reflexivity | lia].
Qed.

Variables (xform : mat4) (centre : bool) (offset : R) (nx ny nz : Z).
Hypothesis Hx : 1e-4 <= offset <= IZR nx - 1e-4.
Hypothesis Hy : 1e-4 <= offset <= IZR ny - 1e-4.
Hypothesis Hz : 1e-4 <= offset <= IZR nz - 1e-4.
Hypothesis Hnx : (nx <= 2048)%Z.
Hypothesis Hny : (ny <= 2048)%Z.
Hypothesis Hnz : (nz <= 2048)%Z.




End InnerOuterBounds.




Section BothNotInside.



End BothNotInside.


(** ** [axisBounds] on the identity affine *)

Section AxisBoundsExamples.

(** A grid of 10 voxels per axis with voxel centres at the indices runs
    from [-0.5] to [9.5] on every axis. *)
Example axisBounds_identity :
  axisBounds (10, 10, 10)%Z eye4 AxNone "centre"%string None 1e-4
  = Ok (ArrayBounds [-0.5; -0.5; -0.5] [9.5; 9.5; 9.5]).
Proof.
  rewrite axisBounds_recognised
    by (unfold recognised_origin, recognised_boundary; auto).
  change (centre_origin "centre") with true.
  change (boundary_in None ["low"; "both"]%string) with false.
  change (boundary_in None ["high"; "both"]%string) with false.
  unfold bounds_of_corners.
  change (mapM (norm_index 3) (requested_axes AxNone))
    with (Ok [0; 1; 2]%nat).
  cbn [bind scalar_request map]. cbv zeta.
  rewrite !column_reduce_corners by lia. cbv zeta.
  rewrite !corners_max, !corners_min.
  rewrite !low_coord_plain, !high_coord_plain by (cbn; lia).
  unfold_arrays. unfold Rmax, Rmin.
  repeat (destruct (Rle_dec _ _); try lra); repeat f_equal; lra.
Qed.

(** The same grid with [boundary = "both"] and the default offset: the
    corners [-0.5 + 1e-4] and [9.5 - 1e-4] are stored as the
    single-precision numbers [-16773861 / 2 ^ 25] and [9961367 / 2 ^ 20]
    ([-0.49990001320838928] and [9.4998998641967773]), and these are the
    bounds. *)
Example axisBounds_stored_corners :
  axisBounds (10, 10, 10)%Z eye4 (AxInt 2) "centre"%string
    (Some "both"%string) 1e-4
  = Ok (ScalarBounds (- (16773861 / 33554432)) (9961367 / 1048576)).
Proof.
  rewrite axisBounds_recognised
    by (unfold recognised_origin, recognised_boundary; auto).
  change (centre_origin "centre") with true.
  change (boundary_in (Some "both"%string) ["low"; "both"]%string) with true.
  change (boundary_in (Some "both"%string) ["high"; "both"]%string) with true.
  unfold bounds_of_corners.
  change (mapM (norm_index 3) (requested_axes (AxInt 2))) with (Ok [2%nat]).
  cbn [bind scalar_request map nth]. cbv zeta.
  rewrite !column_reduce_corners by lia. cbv zeta.
  rewrite !corners_max, !corners_min.
  assert (El : low_coord true true 1e-4 = - (16773861 / 33554432)).
  { unfold low_coord. cbv zeta.
    replace (-0.5 + 1e-4) with (- (0.5 - 1e-4)) by lra.
    rewrite float32_opp.
    rewrite (float32_nearest _ (-25) 16773861); [simpl; lra | lia | | ];
      simpl; lra. }
  assert (Eh : high_coord true true 1e-4 10 = 9961367 / 1048576).
  { unfold high_coord. cbv zeta.
    rewrite (float32_nearest _ (-20) 9961367); [simpl; lra | lia | | ];
      simpl; lra. }
  rewrite El, Eh. unfold_arrays. unfold Rmax, Rmin.
  repeat (destruct (Rle_dec _ _); try lra); do 2 f_equal; lra.
Qed.

(** The spelling of [origin] is free in its case and in "center". *)
Example axisBounds_origin_spelling :
  recognised_origin "Center" /\ recognised_origin "CORNER" /\
  ~ recognised_origin "middle".
Proof.
  split; [right; left; reflexivity | split; [right; right; reflexivity | ]].
  intros [H | [H | H]]; discriminate H.
Qed.

Example axisBounds_bad_origin :
  axisBounds (10, 10, 10)%Z eye4 AxNone "middle"%string None 1e-4
  = Raise (ValueError "Invalid origin value: middle").
Proof. reflexivity. Qed.

Example axisBounds_bad_axis :
  axisBounds (10, 10, 10)%Z eye4 (AxInt 3) "centre"%string None 1e-4
  = Raise IndexError.
Proof.
  rewrite axisBounds_recognised
    by (unfold recognised_origin, recognised_boundary; auto).
  reflexivity.
Qed.

End AxisBoundsExamples.


(** * Further properties of the rotation conversions *)

Section MoreRotations.

(** X1.  For every triple of angles, [axisAnglesToRotMat] returns a rotation
    matrix: its columns are orthonormal and its determinant is [1]. *)
Theorem axisAnglesToRotMat_rotation xrot yrot zrot :
  is_rotation (axisAnglesToRotMat xrot yrot zrot).
Proof. exact (axisAnglesToRotMat_is_rotation xrot yrot zrot). Qed.

(** X2.  Angles in the principal range ([xrot] and [zrot] in [(-pi, pi]],
    [yrot] strictly between [-pi/2] and [pi/2] with a cosine above [1e-8])
    come back unchanged from [rotMatToAxisAngles] after
    [axisAnglesToRotMat]. *)
Theorem angles_round_trip x y z :
  - PI < x <= PI -> - (PI / 2) < y < PI / 2 -> - PI < z <= PI ->
  1e-8 < cos y ->
  rotMatToAxisAngles (axisAnglesToRotMat x y z) = Vec3 x y z.
Proof.
  intros Hx Hy Hz Hfar.
  assert (Hcy : 0 < cos y) by lra.
  pose proof (sin2_cos2_prod z) as Hsc.
  unfold rotMatToAxisAngles. rewrite axisAnglesToRotMat_entries.
  unfold_arrays.
  replace ((cos z * cos y) ^ 2 + (sin z * cos y) ^ 2)
    with ((cos y)² * (sin z * sin z + cos z * cos z))
    by (unfold Rsqr; ring).
  rewrite Hsc, Rmult_1_r, sqrt_Rsqr by lra.
  rewrite isclose_0_far by exact Hfar.
  f_equal.
  - apply arctan2_polar; assumption.
  - replace (- - sin y) with (1 * sin y) by ring.
    replace (cos y) with (1 * cos y) at 1 by ring.
    apply arctan2_polar; lra.
  - replace (sin z * cos y) with (cos y * sin z) by ring.
    replace (cos z * cos y) with (cos y * cos z) by ring.
    apply arctan2_polar; assumption.
Qed.

Lemma angles_round_trip_witness :
  rotMatToAxisAngles (axisAnglesToRotMat 0.1 0.2 0.3) = Vec3 0.1 0.2 0.3.
Proof.
  pose proof PI2_1. pose proof cos_02_lower.
  apply angles_round_trip; lra.
Defined.

Lemma is_rotation_locked a b c d e f g h i :
  is_rotation (Mat3 (Vec3 a b c) (Vec3 d e f) (Vec3 g h i)) ->
  a = 0 -> d = 0 ->
  g * g = 1 /\ h = 0 /\ i = 0 /\ e * e + f * f = 1 /\
  b = g * f /\ c = - (g * e).
Proof.
  intros [Ho Hd] -> ->. unfold_arrays_in Ho. unfold_arrays_in Hd.
  injection Ho as H00 H01 H02 H10 H11 H12 H20 H21 H22.
  assert (Hg : g * g = 1) by lra.
  assert (Hh : h = 0) by nra.
  assert (Hi : i = 0) by nra.
  subst h i.
  repeat split; try reflexivity; try assumption; nsatz.
Qed.

(** X3.  On a rotation matrix whose [yLen] is exactly zero,
    [rotMatToAxisAngles] returns [zrot = 0] and angles from which
    [axisAnglesToRotMat] builds the same matrix again. *)
Theorem locked_rotation_round_trip (rotmat : mat3) :
  is_rotation rotmat -> yLen rotmat = 0 ->
  get3 (rotMatToAxisAngles rotmat) 2 = 0 /\
  reencode (rotMatToAxisAngles rotmat) = rotmat.
Proof.
  destruct rotmat as [[a b c] [d e f] [g h i]]. intros Hrot Hlock.
  assert (Had : a = 0 /\ d = 0).
  { unfold yLen in Hlock. unfold_arrays_in Hlock.
    apply sqrt_eq_0 in Hlock; nra. }
  destruct Had as [Ha Hd].
  destruct (is_rotation_locked _ _ _ _ _ _ _ _ _ Hrot Ha Hd)
    as (Hg & -> & -> & Hef & -> & ->).
  subst a d.
  unfold rotMatToAxisAngles. fold (yLen (Mat3 (Vec3 0 (g * f) (- (g * e)))
                                      (Vec3 0 e f) (Vec3 g 0 0))).
  rewrite Hlock, (isclose_0_true 0) by lra.
  split; [reflexivity | ].
  unfold reencode. unfold_arrays. rewrite axisAnglesToRotMat_entries.
  rewrite cos_0, sin_0.
  assert (Hfe : e <> 0 \/ - f <> 0).
  { destruct (Req_dec e 0) as [He | He]; [right | left; exact He].
    subst e. intros Hf. nra. }
  destruct (arctan2_cos_sin (- f) e Hfe) as [Hcx Hsx].
  replace (e ^ 2 + (- f) ^ 2) with 1 in Hcx, Hsx by nra.
  rewrite sqrt_1 in Hcx, Hsx.
  assert (Hg0 : 0 <> 0 \/ - g <> 0) by (right; nra).
  destruct (arctan2_cos_sin (- g) 0 Hg0) as [Hcy Hsy].
  replace (0 ^ 2 + (- g) ^ 2) with 1 in Hcy, Hsy by nra.
  rewrite sqrt_1 in Hcy, Hsy.
  rewrite Hcx, Hsx, Hcy, Hsy.
  f_equal; f_equal; field.
Qed.

Lemma locked_rotation_round_trip_witness :
  get3 (rotMatToAxisAngles (Mat3 (Vec3 0 0 1) (Vec3 0 1 0) (Vec3 (-1) 0 0))) 2
    = 0 /\
  reencode (rotMatToAxisAngles (Mat3 (Vec3 0 0 1) (Vec3 0 1 0) (Vec3 (-1) 0 0)))
    = Mat3 (Vec3 0 0 1) (Vec3 0 1 0) (Vec3 (-1) 0 0).
Proof.
  apply locked_rotation_round_trip.
  - split; unfold_arrays; [f_equal; f_equal; ring | ring].
  - unfold yLen. unfold_arrays.
    replace (0 ^ 2 + 0 ^ 2) with 0 by ring. apply sqrt_0.
Defined.

End MoreRotations.

Section MoreRoundTrips.

Lemma arctan2_scale k y x : 0 < k -> arctan2 (k * y) (k * x) = arctan2 y x.
Proof.
  intros Hk. unfold arctan2.
  destruct (Rlt_dec 0 (k * x)) as [H1 | H1];
    destruct (Rlt_dec 0 x) as [H2 | H2]; try (exfalso; nra).
  - f_equal. field. split; lra.
  - destruct (Rlt_dec (k * x) 0) as [H3 | H3];
      destruct (Rlt_dec x 0) as [H4 | H4]; try (exfalso; nra).
    + destruct (Rle_dec 0 (k * y)) as [H5 | H5];
        destruct (Rle_dec 0 y) as [H6 | H6]; try (exfalso; nra);
        f_equal; f_equal; field; split; lra.
    + destruct (Rlt_dec 0 (k * y)) as [H5 | H5];
        destruct (Rlt_dec 0 y) as [H6 | H6]; try (exfalso; nra);
        try reflexivity.
      destruct (Rlt_dec (k * y) 0) as [H7 | H7];
        destruct (Rlt_dec y 0) as [H8 | H8]; try (exfalso; nra);
        reflexivity.
Qed.

(** X4.  When [rotMatToAxisAngles] takes a matrix for a locked one, the matrix
    built from the angles it returns has a zero at row 1, column 0; so a
    matrix with another value there, such as a rotation with [yLen = 1e-9],
    is not reproduced. *)
Theorem lock_branch_forgets_z (rotmat : mat3) :
  isclose (yLen rotmat) 0 = true -> at3 rotmat 1 0 <> 0 ->
  at3 (reencode (rotMatToAxisAngles rotmat)) 1 0 = 0 /\
  reencode (rotMatToAxisAngles rotmat) <> rotmat.
Proof.
  intros Hlock Hd.
  assert (H0 : at3 (reencode (rotMatToAxisAngles rotmat)) 1 0 = 0).
  { unfold rotMatToAxisAngles. fold (yLen rotmat). rewrite Hlock.
    unfold reencode. rewrite axisAnglesToRotMat_entries. unfold_arrays.
    rewrite sin_0. ring. }
  split; [exact H0 | ].
  intros E. rewrite E in H0. contradiction.
Qed.

Lemma lock_branch_forgets_z_witness :
  is_rotation nearly_locked_rotation /\
  reencode (rotMatToAxisAngles nearly_locked_rotation)
    <> nearly_locked_rotation.
Proof.
  assert (Hs : sqrt (1 - 1e-9 * 1e-9) * sqrt (1 - 1e-9 * 1e-9)
               = 1 - 1e-9 * 1e-9) by (apply sqrt_sqrt; lra).
  split.
  - unfold nearly_locked_rotation. split; unfold_arrays.
    + f_equal; f_equal; nra.
    + nra.
  - apply lock_branch_forgets_z.
    + unfold yLen, nearly_locked_rotation. unfold_arrays.
      replace (0 ^ 2 + 1e-9 ^ 2) with (1e-9 * 1e-9) by ring.
      rewrite sqrt_square by lra. apply isclose_0_true; lra.
    + unfold nearly_locked_rotation. unfold_arrays. lra.
Defined.

Lemma yLen_scaled_column k m :
  0 < k ->
  yLen (transpose3 (Mat3 (scale3 k (col3 m 0)) (scale3 1 (col3 m 1))
                         (scale3 1 (col3 m 2))))
  = k * yLen m.
Proof.
  intros Hk. destruct m as [[a b c] [d e f] [g h i]].
  unfold yLen. unfold_arrays.
  replace ((k * a) ^ 2 + (k * d) ^ 2) with (k² * (a ^ 2 + d ^ 2))
    by (unfold Rsqr; ring).
  rewrite sqrt_mult by (try apply Rle_0_sqr; nra).
  rewrite sqrt_Rsqr by lra. reflexivity.
Qed.

(** Scaling the first column of a matrix by a positive factor does not
    change the angles read from it, as long as neither matrix is taken for
    a locked one. *)
Lemma rotMatToAxisAngles_scaled k m :
  0 < k -> isclose (yLen m) 0 = false -> isclose (k * yLen m) 0 = false ->
  rotMatToAxisAngles
    (transpose3 (Mat3 (scale3 k (col3 m 0)) (scale3 1 (col3 m 1))
                      (scale3 1 (col3 m 2))))
  = rotMatToAxisAngles m.
Proof.
  intros Hk Hm Hkm. unfold rotMatToAxisAngles.
  fold (yLen m).
  fold (yLen (transpose3 (Mat3 (scale3 k (col3 m 0)) (scale3 1 (col3 m 1))
                               (scale3 1 (col3 m 2))))).
  rewrite yLen_scaled_column by exact Hk. rewrite Hm, Hkm.
  destruct m as [[a b c] [d e f] [g h i]]. unfold_arrays.
  rewrite !Rmult_1_l.
  replace (- (k * g)) with (k * - g) by ring.
  rewrite !arctan2_scale by exact Hk. reflexivity.
Qed.

(** X5.  For positive scales and a rotation matrix that is not taken for a
    locked one (also after its first column is scaled by [sx]), [decompose]
    returns the scales, the offsets and the angles of the rotation, and
    [compose] on these three gives the affine back. *)
Theorem compose_of_decompose s0 s1 s2 offsets rotmat :
  is_rotation rotmat ->
  0 < s0 -> 0 < s1 -> 0 < s2 ->
  isclose (yLen rotmat) 0 = false -> isclose (s0 * yLen rotmat) 0 = false ->
  let xform := compose (Vec3 s0 s1 s2) offsets (RotMat rotmat) None in
  decompose xform true
    = (Vec3 s0 s1 s2, offsets, AxisAngles (rotMatToAxisAngles rotmat)) /\
  compose (Vec3 s0 s1 s2) offsets
    (AxisAngles (rotMatToAxisAngles rotmat)) None = xform.
Proof.
  intros Hrot H0 H1 H2 Hfar Hfar'. cbv zeta.
  destruct (is_rotation_frame _ Hrot) as [Hframe Hdet].
  split.
  - rewrite (decompose_scaled_frame _ _ _ _ _ _ Hframe _ _
               (compose_linear_rows (Vec3 s0 s1 s2) offsets
                  (RotMat rotmat) None)).
    cbv zeta. rewrite det3_scaled_rows, Hdet, compose_translation.
    cbv beta iota delta [get3 v3_0 v3_1 v3_2].
    rewrite (unit_sign_pos s1), (unit_sign_pos s2) by assumption.
    destruct (Rlt_dec _ 0) as [Hd | Hd]; [exfalso; nra | ].
    rewrite !Rabs_pos_eq by lra.
    unfold rotation_result, rotation_matrix.
    rewrite rotMatToAxisAngles_scaled by assumption. reflexivity.
  - change (compose (Vec3 s0 s1 s2) offsets
              (RotMat (reencode (rotMatToAxisAngles rotmat))) None
            = compose (Vec3 s0 s1 s2) offsets (RotMat rotmat) None).
    rewrite rotMatToAxisAngles_reencode by assumption. reflexivity.
Qed.

Lemma compose_of_decompose_witness :
  compose (Vec3 2 3 4) (Vec3 1 2 3)
    (AxisAngles (rotMatToAxisAngles quarter_turn_z)) None
  = compose (Vec3 2 3 4) (Vec3 1 2 3) (RotMat quarter_turn_z) None.
Proof.
  refine (proj2 (compose_of_decompose 2 3 4 (Vec3 1 2 3) quarter_turn_z
                   quarter_turn_is_rotation _ _ _ _ _)); try lra;
    rewrite quarter_turn_yLen; apply isclose_0_far; lra.
Defined.

End MoreRoundTrips.

(** * Further properties of [compose] and [decompose] *)

Section MoreCompose.

(** The linear part and the translation of a composed affine. *)
Lemma compose_parts scales offsets rotations origin :
  linear_part (compose scales offsets rotations origin)
  = Mat3 (hadamard3 (row3 (rotation_matrix rotations) 0) scales)
         (hadamard3 (row3 (rotation_matrix rotations) 1) scales)
         (hadamard3 (row3 (rotation_matrix rotations) 2) scales) /\
  translation_part (compose scales offsets rotations origin)
  = add3 offsets
      (sub3 (origin_or_zero origin)
         (mulv3 (rotation_matrix rotations) (origin_or_zero origin))).
Proof.
  unfold compose. fold (rotation_matrix rotations).
  destruct (rotation_matrix rotations) as [[a b c] [d e f] [g h i]].
  destruct scales as [s0 s1 s2], offsets as [t0 t1 t2].
  destruct origin as [[o0 o1 o2] | ];
    unfold origin_or_zero, hadamard3, add3, mulv3; unfold_arrays;
    (split; [f_equal; f_equal; ring | f_equal; ring]).
Qed.

Lemma transform_point p xform :
  transform (Arr1 (list_of_vec3 p)) xform AxNone false
  = Ok (Arr1 (list_of_vec3
                (add3 (mulv3 (linear_part xform) p)
                      (translation_part xform)))).
Proof.
  destruct p as [p0 p1 p2].
  destruct xform as [[a b c t0] [d e f t1] [g h i t2] q].
  unfold transform, _fillPoints, add3, mulv3. unfold_points. unfold_arrays.
  do 2 f_equal. f_equal; [ | f_equal; [ | f_equal]]; ring.
Qed.

(** X6.  The composed affine sends a point [p] to
    [R (scales * p - origin) + origin + offsets], where [R] is the rotation
    matrix and the origin is [(0, 0, 0)] when none is given. *)
Theorem compose_maps_point scales offsets rotations origin p :
  transform (Arr1 (list_of_vec3 p))
    (compose scales offsets rotations origin) AxNone false
  = Ok (Arr1 (list_of_vec3
                (add3 (add3 (mulv3 (rotation_matrix rotations)
                               (sub3 (hadamard3 scales p)
                                     (origin_or_zero origin)))
                            (origin_or_zero origin))
                      offsets))).
Proof.
  rewrite transform_point.
  destruct (compose_parts scales offsets rotations origin) as [-> ->].
  destruct (rotation_matrix rotations) as [[a b c] [d e f] [g h i]].
  destruct scales as [s0 s1 s2], offsets as [t0 t1 t2], p as [p0 p1 p2].
  destruct (origin_or_zero origin) as [o0 o1 o2].
  unfold hadamard3, add3, mulv3. unfold_arrays. unfold list_of_vec3.
  unfold_arrays. do 2 f_equal. f_equal; [ | f_equal; [ | f_equal]]; ring.
Qed.

(** X7.  The linear part of [rotMatToAffine rotmat origin] is [rotmat], and the
    affine leaves the rotation origin where it is. *)
Theorem rotMatToAffine_fixes_origin rotmat origin :
  linear_part (rotMatToAffine rotmat origin) = rotmat /\
  transform (Arr1 (list_of_vec3 (origin_or_zero origin)))
    (rotMatToAffine rotmat origin) AxNone false
  = Ok (Arr1 (list_of_vec3 (origin_or_zero origin))).
Proof.
  unfold rotMatToAffine. split.
  - destruct (compose_parts (Vec3 1 1 1) (Vec3 0 0 0) (RotMat rotmat) origin)
      as [-> _].
    destruct rotmat as [[a b c] [d e f] [g h i]].
    unfold hadamard3, rotation_matrix. unfold_arrays. f_equal; f_equal; ring.
  - rewrite transform_point.
    destruct (compose_parts (Vec3 1 1 1) (Vec3 0 0 0) (RotMat rotmat) origin)
      as [-> ->].
    destruct rotmat as [[a b c] [d e f] [g h i]].
    destruct (origin_or_zero origin) as [o0 o1 o2].
    unfold hadamard3, add3, mulv3, rotation_matrix. unfold_arrays.
    unfold list_of_vec3. unfold_arrays.
    do 2 f_equal. f_equal; [ | f_equal; [ | f_equal]]; ring.
Qed.

Lemma transform_rows_compose rows a b :
  affine_bottom_row a ->
  Forall (fun r : list R => List.length r = 3%nat) rows ->
  map (world_row (concat b [a])) rows
  = map (world_row b) (map (world_row a) rows).
Proof.
  intros Ha Hrows. rewrite map_map. apply map_ext_in. intros r Hr.
  rewrite Forall_forall in Hrows. specialize (Hrows r Hr).
  destruct r as [ | p0 [ | p1 [ | p2 [ | p3 r]]]]; try discriminate Hrows.
  unfold affine_bottom_row in Ha.
  destruct a as [[a00 a01 a02 a03] [a10 a11 a12 a13] [a20 a21 a22 a23] a3].
  destruct b as [[b00 b01 b02 b03] [b10 b11 b12 b13] [b20 b21 b22 b23] b3].
  unfold_arrays_in Ha. subst a3.
  unfold world_row. unfold_points. unfold_arrays.
  f_equal; [ | f_equal; [ | f_equal]]; ring.
Qed.

(** X8.  Sending points through [concat(b, a)] is sending them through [a] and
    then through [b], for [a] with bottom row [(0, 0, 0, 1)] and an array
    of rows of three coordinates. *)
Theorem transform_concat rows a b :
  affine_bottom_row a ->
  Forall (fun r : list R => List.length r = 3%nat) rows ->
  transform (Arr2 3 rows) (concat b [a]) AxNone false
  = (t <- transform (Arr2 3 rows) a AxNone false ;;
     transform t b AxNone false).
Proof.
  intros Ha Hrows. rewrite !transform_rows. cbn [bind].
  rewrite transform_rows. f_equal. f_equal.
  apply transform_rows_compose; assumption.
Qed.

Lemma transform_concat_witness :
  transform (Arr2 3 [[1; 2; 3]]) (concat scale2_shift_z [scale2_shift_z])
    AxNone false
  = (t <- transform (Arr2 3 [[1; 2; 3]]) scale2_shift_z AxNone false ;;
     transform t scale2_shift_z AxNone false).
Proof.
  apply transform_concat.
  - reflexivity.
  - repeat constructor.
Defined.

End MoreCompose.

Section MoreDecompose.

(** X9.  [decompose] undoes [compose] for all positive scales and all angles
    in the principal range with [sx * cos yrot] above [1e-8]. *)
Theorem decompose_inverts_compose s0 s1 s2 offsets x y z :
  0 < s0 -> 0 < s1 -> 0 < s2 ->
  - PI < x <= PI -> - (PI / 2) < y < PI / 2 -> - PI < z <= PI ->
  1e-8 < s0 * cos y ->
  decompose (compose (Vec3 s0 s1 s2) offsets (AxisAngles (Vec3 x y z)) None)
    true
  = (Vec3 s0 s1 s2, offsets, AxisAngles (Vec3 x y z)).
Proof. apply decompose_compose_identity. Qed.

Lemma decompose_inverts_compose_witness :
  decompose (compose (Vec3 0.5 2 7) (Vec3 (-1) 0 4)
               (AxisAngles (Vec3 (-1) 0.2 3)) None) true
  = (Vec3 0.5 2 7, Vec3 (-1) 0 4, AxisAngles (Vec3 (-1) 0.2 3)).
Proof.
  pose proof PI2_3_2. pose proof cos_02_lower.
  apply decompose_inverts_compose; lra.
Defined.

(** X10.  For a composed affine with non-zero scales, whatever the offsets and
    the rotation origin, [decompose] returns [|sy|] and [|sz|], and [|sx|]
    with the sign of the product of the three scales. *)
Theorem decompose_scales_of_compose scales offsets rotations origin angles :
  valid_rotation rotations ->
  get3 scales 1 <> 0 -> get3 scales 2 <> 0 ->
  fst (fst (decompose (compose scales offsets rotations origin) angles))
  = Vec3 (if Rlt_dec (get3 scales 0 * get3 scales 1 * get3 scales 2) 0
          then - Rabs (get3 scales 0) else Rabs (get3 scales 0))
         (Rabs (get3 scales 1)) (Rabs (get3 scales 2)).
Proof. apply decompose_compose_scales. Qed.

Lemma decompose_scales_of_compose_witness :
  fst (fst (decompose (compose (Vec3 (-2) (-3) 4) (Vec3 1 2 3)
                         (AxisAngles (Vec3 0.1 0.2 0.3)) None) true))
  = Vec3 2 3 4.
Proof.
  rewrite (decompose_scales_of_compose (Vec3 (-2) (-3) 4) (Vec3 1 2 3)
             (AxisAngles (Vec3 0.1 0.2 0.3)) None true I)
    by (cbv beta iota delta [get3 v3_0 v3_1 v3_2]; lra).
  cbv beta iota delta [get3 v3_0 v3_1 v3_2].
  destruct (Rlt_dec _ 0) as [H | H]; [exfalso; lra | ].
  rewrite !Rabs_left, Rabs_pos_eq by lra. f_equal; lra.
Defined.

Lemma decompose_translations xform angles :
  snd (fst (decompose xform angles)) = translation_part xform.
Proof.
  unfold decompose, decompose_return, decompose_body. cbv zeta.
  destruct (Rlt_dec _ 0); reflexivity.
Qed.

(** X11.  The translation [decompose] returns for a composed affine is
    [offsets + origin - R origin]: the offsets themselves when [compose] was
    called without origin, and otherwise not. *)
Theorem decompose_translation_of_compose
    scales offsets rotations origin angles :
  snd (fst (decompose (compose scales offsets rotations origin) angles))
  = add3 offsets
      (sub3 (origin_or_zero origin)
         (mulv3 (rotation_matrix rotations) (origin_or_zero origin))) /\
  (origin = None ->
   snd (fst (decompose (compose scales offsets rotations origin) angles))
   = offsets).
Proof.
  rewrite decompose_translations.
  destruct (compose_parts scales offsets rotations origin) as [_ ->].
  split; [reflexivity | intros ->].
  destruct offsets as [t0 t1 t2].
  destruct (rotation_matrix rotations) as [[a b c] [d e f] [g h i]].
  unfold origin_or_zero, add3, mulv3. unfold_arrays. f_equal; ring.
Qed.

Lemma decompose_translation_of_compose_witness :
  snd (fst (decompose (compose (Vec3 2 3 4) (Vec3 1 2 3)
                         (RotMat quarter_turn_z) None) true))
  = Vec3 1 2 3.
Proof.
  exact (proj2 (decompose_translation_of_compose (Vec3 2 3 4) (Vec3 1 2 3)
                  (RotMat quarter_turn_z) None true) eq_refl).
Defined.

Lemma transpose3_involutive m : transpose3 (transpose3 m) = m.
Proof. destruct m as [[a b c] [d e f] [g h i]]. reflexivity. Qed.

Lemma scale3_1 v : scale3 1 v = v.
Proof. destruct v. unfold_arrays. f_equal; ring. Qed.

(** What [decompose] hands to [rotMatToAxisAngles], or returns when
    [angles] is false, for a composed affine with positive scales. *)
Lemma decompose_rotation_of_compose s0 s1 s2 offsets rotations origin angles :
  valid_rotation rotations -> 0 < s0 -> 0 < s1 -> 0 < s2 ->
  snd (decompose (compose (Vec3 s0 s1 s2) offsets rotations origin) angles)
  = rotation_result angles
      (transpose3 (Mat3 (scale3 s0 (col3 (rotation_matrix rotations) 0))
                        (scale3 1 (col3 (rotation_matrix rotations) 1))
                        (scale3 1 (col3 (rotation_matrix rotations) 2)))).
Proof.
  intros Hrot H0 H1 H2.
  apply rotation_matrix_is_rotation, is_rotation_frame in Hrot.
  destruct Hrot as [Hframe Hdet].
  rewrite (decompose_scaled_frame _ _ _ _ _ _ Hframe _ _
             (compose_linear_rows (Vec3 s0 s1 s2) offsets rotations origin)).
  cbv zeta. rewrite det3_scaled_rows, Hdet.
  cbv beta iota delta [get3 v3_0 v3_1 v3_2].
  rewrite (unit_sign_pos s1), (unit_sign_pos s2) by assumption.
  destruct (Rlt_dec _ 0) as [Hd | Hd]; [exfalso; nra | reflexivity].
Qed.

(** X12.  With [angles = False], [decompose] of an affine composed from positive
    scales returns the rotation matrix with its first column multiplied by
    [sx]: a rotation matrix only when [sx = 1]. *)
Theorem decompose_matrix_keeps_x_scale s0 s1 s2 offsets rotmat origin :
  is_rotation rotmat -> 0 < s0 -> 0 < s1 -> 0 < s2 ->
  exists m,
    snd (decompose (compose (Vec3 s0 s1 s2) offsets (RotMat rotmat) origin)
           false) = RotMat m /\
    col3 m 0 = scale3 s0 (col3 rotmat 0) /\
    col3 m 1 = col3 rotmat 1 /\ col3 m 2 = col3 rotmat 2 /\
    (is_rotation m <-> s0 = 1).
Proof.
  intros Hrot H0 H1 H2.
  rewrite (decompose_rotation_of_compose s0 s1 s2 offsets (RotMat rotmat)
             origin false Hrot H0 H1 H2).
  unfold rotation_result, rotation_matrix. rewrite !scale3_1.
  eexists. split; [reflexivity | ].
  destruct rotmat as [[a b c] [d e f] [g h i]].
  split; [reflexivity | split; [reflexivity | split; [reflexivity | ]]].
  split.
  - intros [Ho _]. destruct Hrot as [Ho' _].
    unfold_arrays_in Ho. unfold_arrays_in Ho'.
    injection Ho as E00 _. injection Ho' as E00' _. nra.
  - intros ->. unfold_arrays.
    replace (1 * a) with a by ring. replace (1 * d) with d by ring.
    replace (1 * g) with g by ring. exact Hrot.
Qed.

Lemma decompose_matrix_keeps_x_scale_witness :
  exists m,
    snd (decompose (compose (Vec3 2 3 4) (Vec3 1 2 3) (RotMat quarter_turn_z)
                      None) false) = RotMat m /\
    col3 m 0 = scale3 2 (col3 quarter_turn_z 0) /\ ~ is_rotation m.
Proof.
  destruct (decompose_matrix_keeps_x_scale 2 3 4 (Vec3 1 2 3) quarter_turn_z
              None quarter_turn_is_rotation) as (m & Hm & Hc & _ & _ & Hiff);
    try lra.
  exists m. split; [exact Hm | split; [exact Hc | ]].
  intros H. apply Hiff in H. lra.
Defined.

(** X13.  When [sx * yLen] of the rotation is close to zero for [np.isclose],
    [decompose] of the composed affine takes the lock branch and returns
    [zrot = 0], whatever the rotation about z was. *)
Theorem decompose_small_x_scale_locks s0 s1 s2 offsets rotations origin :
  valid_rotation rotations -> 0 < s0 -> 0 < s1 -> 0 < s2 ->
  isclose (s0 * yLen (rotation_matrix rotations)) 0 = true ->
  exists xrot yrot,
    snd (decompose (compose (Vec3 s0 s1 s2) offsets rotations origin) true)
    = AxisAngles (Vec3 xrot yrot 0).
Proof.
  intros Hrot H0 H1 H2 Hlock.
  rewrite (decompose_rotation_of_compose s0 s1 s2 offsets rotations origin
             true Hrot H0 H1 H2).
  unfold rotation_result, rotMatToAxisAngles.
  match goal with
  | |- context [isclose (sqrt (at3 ?m 0 0 ^ 2 + at3 ?m 1 0 ^ 2)) 0] =>
      fold (yLen m)
  end.
  rewrite yLen_scaled_column by exact H0. rewrite Hlock.
  do 2 eexists. reflexivity.
Qed.

Lemma decompose_small_x_scale_locks_witness :
  exists xrot yrot,
    snd (decompose (compose (Vec3 1e-9 1 1) (Vec3 0 0 0)
                      (RotMat quarter_turn_z) None) true)
    = AxisAngles (Vec3 xrot yrot 0).
Proof.
  apply decompose_small_x_scale_locks; try lra.
  - exact quarter_turn_is_rotation.
  - unfold rotation_matrix. rewrite quarter_turn_yLen.
    apply isclose_0_true; lra.
Defined.

End MoreDecompose.

(** * Further properties of [axisBounds] *)

Section MoreAxisBounds.

Lemma norm_index_axis_number ax :
  axis_in_range ax ->
  norm_index 3 ax = Ok (axis_number ax) /\ (axis_number ax < 3)%nat.
Proof.
  unfold axis_in_range, norm_index, axis_number. intros H.
  assert (Hmod : (0 <= ax mod 3 < 3)%Z) by (apply Z.mod_pos_bound; lia).
  split; [ | lia].
  destruct (Z.leb_spec 0 ax); destruct (Z.ltb_spec ax (Z.of_nat 3));
    cbn [andb]; try lia.
  - rewrite Z.mod_small by lia. reflexivity.
  - destruct (Z.leb_spec (- Z.of_nat 3) ax); destruct (Z.ltb_spec ax 0);
      cbn [andb]; try lia.
    do 2 f_equal.
    replace ax with (ax + Z.of_nat 3 + (-1) * 3)%Z at 2 by lia.
    rewrite Z.mod_add by lia. rewrite Z.mod_small by lia. reflexivity.
Qed.

Lemma mapM_norm_index_axis_numbers l :
  Forall axis_in_range l ->
  mapM (norm_index 3) l = Ok (map axis_number l) /\
  Forall (fun j => (j < 3)%nat) (map axis_number l).
Proof.
  induction 1 as [ | ax l Hax _ [IH1 IH2]];
    [split; [reflexivity | constructor] | ].
  destruct (norm_index_axis_number ax Hax) as [E Hlt].
  cbn [mapM map]. rewrite E, IH1. split; [reflexivity | ].
  constructor; assumption.
Qed.

Lemma column_reduce_min_closed xform lo hx hy hz j :
  (j < 3)%nat ->
  column_reduce Rmin
    (map (world_row xform) (corner_points lo lo lo hx hy hz)) j
  = image_min xform lo hx hy hz j.
Proof.
  intros Hj. rewrite column_reduce_corners by exact Hj. cbv zeta.
  rewrite corners_min. reflexivity.
Qed.

Lemma column_reduce_max_closed xform lo hx hy hz j :
  (j < 3)%nat ->
  column_reduce Rmax
    (map (world_row xform) (corner_points lo lo lo hx hy hz)) j
  = image_max xform lo hx hy hz j.
Proof.
  intros Hj. rewrite column_reduce_corners by exact Hj. cbv zeta.
  rewrite corners_max. reflexivity.
Qed.

Lemma map_ext_Forall {A B : Type} (f g : A -> B) (P : A -> Prop) l :
  Forall P l -> (forall a, P a -> f a = g a) -> map f l = map g l.
Proof.
  intros Hl Hfg. apply map_ext_in. intros a Ha.
  apply Hfg. rewrite Forall_forall in Hl. apply Hl. exact Ha.
Qed.

(** The value of [axisBounds] on accepted keywords and axes inside the
    array, in closed form. *)
Lemma axisBounds_closed (nx ny nz : Z) xform axes origin boundary offset :
  recognised_origin origin -> recognised_boundary boundary ->
  Forall axis_in_range (requested_axes axes) ->
  let centre := centre_origin origin in
  let lo := low_coord centre (boundary_in boundary ["low"; "both"]%string)
              offset in
  let hi := high_coord centre (boundary_in boundary ["high"; "both"]%string)
              offset in
  exists b,
    axisBounds (nx, ny, nz) xform axes origin boundary offset = Ok b /\
    bounds_lo b
    = map (fun ax => image_min xform lo (hi nx) (hi ny) (hi nz)
                       (axis_number ax)) (requested_axes axes) /\
    bounds_hi b
    = map (fun ax => image_max xform lo (hi nx) (hi ny) (hi nz)
                       (axis_number ax)) (requested_axes axes).
Proof.
  intros Ho Hb Hax. cbv zeta.
  rewrite axisBounds_recognised by assumption.
  unfold bounds_of_corners.
  destruct (mapM_norm_index_axis_numbers _ Hax) as [-> Hlt].
  cbn [bind]. cbv zeta. eexists. split; [reflexivity | ].
  rewrite bounds_lo_result, bounds_hi_result by apply length_map.
  rewrite (map_ext_Forall _ _ _ _ Hlt
             (column_reduce_min_closed xform _ _ _ _)).
  rewrite (map_ext_Forall _ _ _ _ Hlt
             (column_reduce_max_closed xform _ _ _ _)).
  rewrite !map_map. split; reflexivity.
Qed.

(** X14.  With accepted keywords and axes inside the array, the bounds
    [axisBounds] returns on an axis are the sums, over the three voxel axes,
    of the lesser (for [lo]) and of the greater (for [hi]) of the two
    products of the row entry with the ends of the voxel range, plus the
    translation.  The ends are the single-precision numbers [points] holds:
    [float32] of [-0.5] or [0], plus the offset where [boundary] asks for
    it, and [float32] of [n - 0.5] or [n], minus the offset where
    [boundary] asks for it. *)
Theorem axisBounds_closed_form
    (nx ny nz : Z) xform axes origin boundary offset :
  recognised_origin origin -> recognised_boundary boundary ->
  Forall axis_in_range (requested_axes axes) ->
  let centre := centre_origin origin in
  let lo := low_coord centre (boundary_in boundary ["low"; "both"]%string)
              offset in
  let hi := high_coord centre (boundary_in boundary ["high"; "both"]%string)
              offset in
  exists b,
    axisBounds (nx, ny, nz) xform axes origin boundary offset = Ok b /\
    bounds_lo b
    = map (fun ax => image_min xform lo (hi nx) (hi ny) (hi nz)
                       (axis_number ax)) (requested_axes axes) /\
    bounds_hi b
    = map (fun ax => image_max xform lo (hi nx) (hi ny) (hi nz)
                       (axis_number ax)) (requested_axes axes).
Proof. apply axisBounds_closed. Qed.

Lemma axisBounds_closed_form_witness :
  exists b,
    axisBounds (10, 20, 30)%Z scale2_shift_z (AxList [-1; 0]%Z)
      "corner"%string (Some "high"%string) 1e-4 = Ok b /\
    bounds_lo b
    = [image_min scale2_shift_z (float32 0) (float32 (10 - 1e-4))
         (float32 (20 - 1e-4)) (float32 (30 - 1e-4)) 2;
       image_min scale2_shift_z (float32 0) (float32 (10 - 1e-4))
         (float32 (20 - 1e-4)) (float32 (30 - 1e-4)) 0].
Proof.
  destruct (axisBounds_closed_form 10 20 30 scale2_shift_z
              (AxList [-1; 0]%Z) "corner"%string (Some "high"%string) 1e-4)
    as (b & Hb & Hlo & _).
  - right; right. reflexivity.
  - right; left. reflexivity.
  - repeat constructor; unfold axis_in_range; lia.
  - exists b. split; [exact Hb | exact Hlo].
Defined.

End MoreAxisBounds.

Section MoreAxisBoundsOrder.

Lemma interval_image_mono w a b a' b' :
  a <= a' <= b -> a <= b' <= b ->
  Rmin (w * a) (w * b) <= Rmin (w * a') (w * b') /\
  Rmax (w * a') (w * b') <= Rmax (w * a) (w * b).
Proof.
  intros Ha Hb. unfold Rmin, Rmax.
  destruct (Rle_dec (w * a) (w * b)); destruct (Rle_dec (w * a') (w * b'));
    destruct (Rle_lt_dec 0 w); split; nra.
Qed.

Lemma coords_inside centre adjust adjust' offset n :
  0 <= offset <= IZR n ->
  low_coord centre false offset <= low_coord centre adjust offset
    <= high_coord centre false offset n /\
  low_coord centre false offset <= high_coord centre adjust' offset n
    <= high_coord centre false offset n.
Proof.
  intros H. unfold low_coord, high_coord. cbv zeta.
  repeat split; apply float32_mono; destruct centre, adjust, adjust'; lra.
Qed.

Lemma image_inside xform centre adjust adjust' offset nx ny nz j :
  0 <= offset <= IZR nx -> 0 <= offset <= IZR ny -> 0 <= offset <= IZR nz ->
  image_min xform (low_coord centre false offset)
    (high_coord centre false offset nx) (high_coord centre false offset ny)
    (high_coord centre false offset nz) j
  <= image_min xform (low_coord centre adjust offset)
       (high_coord centre adjust' offset nx)
       (high_coord centre adjust' offset ny)
       (high_coord centre adjust' offset nz) j /\
  image_max xform (low_coord centre adjust offset)
    (high_coord centre adjust' offset nx)
    (high_coord centre adjust' offset ny)
    (high_coord centre adjust' offset nz) j
  <= image_max xform (low_coord centre false offset)
       (high_coord centre false offset nx)
       (high_coord centre false offset ny)
       (high_coord centre false offset nz) j.
Proof.
  intros Hx Hy Hz. unfold image_min, image_max. cbv zeta.
  destruct (coords_inside centre adjust adjust' offset nx Hx) as [Hl Hhx].
  destruct (coords_inside centre adjust adjust' offset ny Hy) as [_ Hhy].
  destruct (coords_inside centre adjust adjust' offset nz Hz) as [_ Hhz].
  destruct (row3 (linear_part xform) j) as [w0 w1 w2].
  cbv beta iota delta [v3_0 v3_1 v3_2].
  destruct (interval_image_mono w0 _ _ _ _ Hl Hhx).
  destruct (interval_image_mono w1 _ _ _ _
              (proj1 (coords_inside centre adjust adjust' offset ny Hy)) Hhy).
  destruct (interval_image_mono w2 _ _ _ _
              (proj1 (coords_inside centre adjust adjust' offset nz Hz)) Hhz).
  split; lra.
Qed.

(** X15.  For every accepted [boundary] and an offset between zero and each
    dimension of the shape, the bounds lie inside the bounds computed with
    [boundary = None]: [lo] is not smaller and [hi] is not greater. *)
Theorem axisBounds_inside_unadjusted
    (nx ny nz : Z) xform axes origin boundary offset :
  recognised_origin origin -> recognised_boundary boundary ->
  0 <= offset -> offset <= IZR nx -> offset <= IZR ny -> offset <= IZR nz ->
  Forall axis_in_range (requested_axes axes) ->
  exists inner outer,
    axisBounds (nx, ny, nz) xform axes origin boundary offset = Ok inner /\
    axisBounds (nx, ny, nz) xform axes origin None offset = Ok outer /\
    Forall2 Rle (bounds_lo outer) (bounds_lo inner) /\
    Forall2 Rle (bounds_hi inner) (bounds_hi outer).
Proof.
  intros Ho Hb H0 Hx Hy Hz Hax.
  destruct (axisBounds_closed nx ny nz xform axes origin boundary offset
              Ho Hb Hax) as (inner & Hinner & Eli & Ehi).
  destruct (axisBounds_closed nx ny nz xform axes origin None offset Ho
              ltac:(unfold recognised_boundary; auto) Hax)
    as (outer & Houter & Elo & Eho).
  exists inner, outer. split; [exact Hinner | split; [exact Houter | ]].
  rewrite Eli, Ehi, Elo, Eho.
  change (boundary_in None ["low"; "both"]%string) with false.
  change (boundary_in None ["high"; "both"]%string) with false.
  clear Hax Eli Ehi Elo Eho Hinner Houter.
  induction (requested_axes axes) as [ | ax l [IHlo IHhi]]; cbn [map].
  - split; constructor.
  -
    destruct (image_inside xform (centre_origin origin)
                (boundary_in boundary ["low"; "both"]%string)
                (boundary_in boundary ["high"; "both"]%string)
                offset nx ny nz (axis_number ax)) as [Hlo Hhi]; try lra.
    split; constructor; assumption.
Qed.

Lemma axisBounds_inside_unadjusted_witness :
  exists inner outer,
    axisBounds (10, 10, 10)%Z scale2_shift_z AxNone "corner"%string
      (Some "low"%string) 1e-4 = Ok inner /\
    axisBounds (10, 10, 10)%Z scale2_shift_z AxNone "corner"%string None 1e-4
      = Ok outer /\
    Forall2 Rle (bounds_lo outer) (bounds_lo inner) /\
    Forall2 Rle (bounds_hi inner) (bounds_hi outer).
Proof.
  apply axisBounds_inside_unadjusted; try lra.
  - right; right. reflexivity.
  - left. reflexivity.
  - repeat constructor; unfold axis_in_range; lia.
Defined.

Lemma lower_ascii_idempotent c : lower_ascii (lower_ascii c) = lower_ascii c.
Proof.
  destruct c as [[ | ] [ | ] [ | ] [ | ] [ | ] [ | ] [ | ] [ | ]]; reflexivity.
Qed.

Lemma lower_upper_ascii c : lower_ascii (upper_ascii c) = lower_ascii c.
Proof.
  destruct c as [[ | ] [ | ] [ | ] [ | ] [ | ] [ | ] [ | ] [ | ]]; reflexivity.
Qed.

Lemma lower_idempotent s : lower (lower s) = lower s.
Proof.
  induction s as [ | c s IH]; [reflexivity | ].
  cbn [lower]. rewrite lower_ascii_idempotent, IH. reflexivity.
Qed.

Lemma lower_upper s : lower (upper s) = lower s.
Proof.
  induction s as [ | c s IH]; [reflexivity | ].
  cbn [lower upper]. rewrite lower_upper_ascii, IH. reflexivity.
Qed.

Lemma axisBounds_same_lower shape xform axes origin origin' boundary offset :
  lower origin = lower origin' ->
  axisBounds shape xform axes origin boundary offset
  = axisBounds shape xform axes origin' boundary offset.
Proof. intros H. unfold axisBounds. rewrite H. reflexivity. Qed.

(** X16.  For an [origin] of ASCII characters, [axisBounds] gives the same
    result for [origin], [origin.upper()] and [origin.lower()], and reads
    any spelling of "center" as "centre". *)
Theorem axisBounds_origin_case shape xform axes origin boundary offset :
  ascii_line origin = true ->
  axisBounds shape xform axes (upper origin) boundary offset
  = axisBounds shape xform axes origin boundary offset /\
  axisBounds shape xform axes (lower origin) boundary offset
  = axisBounds shape xform axes origin boundary offset /\
  (lower origin = "center"%string ->
   axisBounds shape xform axes origin boundary offset
   = axisBounds shape xform axes "centre" boundary offset).
Proof.
  intros _. split; [ | split].
  - apply axisBounds_same_lower, lower_upper.
  - apply axisBounds_same_lower, lower_idempotent.
  - intros H. unfold axisBounds. rewrite H. reflexivity.
Qed.

Lemma axisBounds_origin_case_witness :
  axisBounds (10, 10, 10)%Z eye4 AxNone "CENTER"%string None 1e-4
  = axisBounds (10, 10, 10)%Z eye4 AxNone "centre" None 1e-4.
Proof.
  exact (proj2 (proj2 (axisBounds_origin_case (10, 10, 10)%Z eye4 AxNone
                         "CENTER"%string None 1e-4 eq_refl)) eq_refl).
Defined.

(** X17.  Asking for one axis by its number returns the pair of scalars that
    asking for the list of that one axis returns as two arrays of one
    element. *)
Theorem axisBounds_scalar_or_list shape xform ax origin boundary offset lo hi :
  axisBounds shape xform (AxInt ax) origin boundary offset
    = Ok (ScalarBounds lo hi)
  <-> axisBounds shape xform (AxList [ax]) origin boundary offset
    = Ok (ArrayBounds [lo] [hi]).
Proof.
  destruct (axisBounds_cases shape xform (AxInt ax) origin boundary offset)
    as [[Ho [m Herr]] | [(Ho & Hb & [m Herr]) | (Ho & Hb & Heq)]].
  - destruct (axisBounds_cases shape xform (AxList [ax]) origin boundary
                offset) as [[_ [m' Herr']] | [(Ho' & _) | (Ho' & _)]];
      try contradiction.
    rewrite Herr, Herr'. split; discriminate.
  - destruct (axisBounds_cases shape xform (AxList [ax]) origin boundary
                offset)
      as [[Ho' _] | [(_ & _ & [m' Herr']) | (_ & Hb' & _)]];
      try contradiction.
    rewrite Herr, Herr'. split; discriminate.
  - rewrite Heq, (axisBounds_recognised _ _ (AxList [ax])) by assumption.
    unfold bounds_of_corners. destruct shape as [[nx ny] nz].
    cbn [requested_axes scalar_request mapM].
    destruct (norm_index 3 ax) as [j | e]; cbn [bind map nth].
    + split; intros H; injection H as <- <-; reflexivity.
    + split; discriminate.
Qed.

Lemma norm_index_outside ax :
  ~ axis_in_range ax -> norm_index 3 ax = Raise IndexError.
Proof.
  unfold axis_in_range, norm_index. intros H.
  destruct (Z.leb_spec 0 ax); destruct (Z.ltb_spec ax (Z.of_nat 3));
    cbn [andb]; try lia;
    destruct (Z.leb_spec (- Z.of_nat 3) ax); destruct (Z.ltb_spec ax 0);
    cbn [andb]; try lia; reflexivity.
Qed.

Lemma axis_in_range_dec ax : {axis_in_range ax} + {~ axis_in_range ax}.
Proof.
  unfold axis_in_range.
  destruct (Z_le_dec (-3) ax); destruct (Z_lt_dec ax 3);
    (left; lia) || (right; lia).
Defined.

Lemma mapM_norm_index_outcome l :
  (Forall axis_in_range l /\ mapM (norm_index 3) l = Ok (map axis_number l))
  \/ (~ Forall axis_in_range l /\ mapM (norm_index 3) l = Raise IndexError).
Proof.
  induction l as [ | ax l IH].
  - left. split; [constructor | reflexivity].
  - destruct (axis_in_range_dec ax) as [Hax | Hax].
    + destruct (norm_index_axis_number ax Hax) as [E _].
      destruct IH as [[Hl El] | [Hl El]].
      * left. split; [constructor; assumption | ].
        cbn [mapM map]. rewrite E, El. reflexivity.
      * right. split.
        -- intros H. inversion H; subst. contradiction.
        -- cbn [mapM]. rewrite E, El. reflexivity.
    + right. split.
      * intros H. inversion H; subst. contradiction.
      * cbn [mapM]. rewrite (norm_index_outside ax Hax). reflexivity.
Qed.

(** X18.  [axisBounds] returns exactly when both keywords are accepted and
    every requested axis is in [-3 .. 2], and raises [IndexError] exactly
    when the keywords are accepted and some axis is not. *)
Theorem axisBounds_outcome shape xform axes origin boundary offset :
  ((exists b, axisBounds shape xform axes origin boundary offset = Ok b)
   <-> recognised_origin origin /\ recognised_boundary boundary /\
       Forall axis_in_range (requested_axes axes)) /\
  (axisBounds shape xform axes origin boundary offset = Raise IndexError
   <-> recognised_origin origin /\ recognised_boundary boundary /\
       ~ Forall axis_in_range (requested_axes axes)).
Proof.
  destruct (axisBounds_cases shape xform axes origin boundary offset)
    as [[Ho [m Herr]] | [(Ho & Hb & [m Herr]) | (Ho & Hb & Heq)]].
  - rewrite Herr. split; split;
      try (intros [b H]; discriminate H); try discriminate; tauto.
  - rewrite Herr. split; split;
      try (intros [b H]; discriminate H); try discriminate; tauto.
  - rewrite Heq. unfold bounds_of_corners. destruct shape as [[nx ny] nz].
    destruct (mapM_norm_index_outcome (requested_axes axes))
      as [[Hl ->] | [Hl ->]]; cbn [bind]; split; split.
    + tauto.
    + intros _. eexists. reflexivity.
    + discriminate.
    + tauto.
    + intros [b H]. discriminate H.
    + tauto.
    + tauto.
    + reflexivity.
Qed.

Lemma max_minus_min w a b :
  a <= b -> Rmax (w * a) (w * b) - Rmin (w * a) (w * b) = Rabs w * (b - a).
Proof.
  intros Hab. unfold Rmax, Rmin, Rabs.
  destruct (Rle_dec (w * a) (w * b)); destruct (Rcase_abs w); nra.
Qed.

Lemma scaled_error (a d eps : R) :
  - eps <= d <= eps -> - (Rabs a * eps) <= Rabs a * d <= Rabs a * eps.
Proof. intros H. pose proof (Rabs_pos a). nra. Qed.

(** X19.  The bounds [main] computes are a pair of scalars whose difference,
    the height it prints, is [|m20| w1 + |m21| w2 + |m22| w3] for the third
    row [m2] of the linear part and the widths [w_i = float32 (dim_i - 0.5 -
    1e-4) - float32 (-0.5 + 1e-4)] of the stored box, when the dimensions
    are at least 1.  For dimensions up to 2048 that is within [(|m20| +
    |m21| + |m22|) / 8192] of [|m20| (dim1 - 0.0002) + |m21| (dim2 - 0.0002)
    + |m22| (dim3 - 0.0002)]. *)
Theorem main_bounds_height dim1 dim2 dim3 xform :
  (1 <= dim1)%Z -> (1 <= dim2)%Z -> (1 <= dim3)%Z ->
  let m2 := row3 (linear_part xform) 2 in
  let width (dim : Z) := float32 (IZR dim - 0.5 - 1e-4)
                         - float32 (-0.5 + 1e-4) in
  exists lo hi,
    main_bounds dim1 dim2 dim3 xform = Ok (ScalarBounds lo hi) /\
    hi - lo
    = Rabs (get3 m2 0) * width dim1 + Rabs (get3 m2 1) * width dim2
      + Rabs (get3 m2 2) * width dim3 /\
    ((dim1 <= 2048)%Z -> (dim2 <= 2048)%Z -> (dim3 <= 2048)%Z ->
     Rabs (hi - lo
           - (Rabs (get3 m2 0) * (IZR dim1 - 2 * 1e-4)
              + Rabs (get3 m2 1) * (IZR dim2 - 2 * 1e-4)
              + Rabs (get3 m2 2) * (IZR dim3 - 2 * 1e-4)))
     <= (Rabs (get3 m2 0) + Rabs (get3 m2 1) + Rabs (get3 m2 2)) / 8192).
Proof.
  intros H1 H2 H3. apply IZR_le in H1, H2, H3. cbv zeta.
  unfold main_bounds. cbv zeta.
  rewrite axisBounds_recognised
    by (unfold recognised_origin, recognised_boundary; auto).
  change (centre_origin "centre") with true.
  change (boundary_in (Some "both"%string) ["low"; "both"]%string) with true.
  change (boundary_in (Some "both"%string) ["high"; "both"]%string) with true.
  unfold bounds_of_corners.
  change (mapM (norm_index 3) (requested_axes (AxInt 2))) with (Ok [2%nat]).
  cbn [bind scalar_request map nth]. cbv zeta.
  rewrite column_reduce_min_closed, column_reduce_max_closed by lia.
  do 2 eexists. split; [reflexivity | ].
  unfold image_min, image_max, low_coord, high_coord. cbv zeta.
  destruct xform as [[a b c t0] [d e f t1] [g h i t2] q]. unfold_arrays.
  set (l := float32 (-0.5 + 1e-4)).
  set (h1 := float32 (IZR dim1 - 0.5 - 1e-4)).
  set (h2 := float32 (IZR dim2 - 0.5 - 1e-4)).
  set (h3 := float32 (IZR dim3 - 0.5 - 1e-4)).
  assert (L1 : l <= h1) by (apply float32_mono; lra).
  assert (L2 : l <= h2) by (apply float32_mono; lra).
  assert (L3 : l <= h3) by (apply float32_mono; lra).
  pose proof (max_minus_min g l h1 L1) as E1.
  pose proof (max_minus_min h l h2 L2) as E2.
  pose proof (max_minus_min i l h3 L3) as E3.
  split; [lra | ].
  intros B1 B2 B3. apply IZR_le in B1, B2, B3.
  pose proof (float32_error_2048 (-0.5 + 1e-4) ltac:(apply Rabs_def1; lra))
    as El.
  pose proof (float32_error_2048 (IZR dim1 - 0.5 - 1e-4)
                ltac:(apply Rabs_def1; lra)) as Eh1.
  pose proof (float32_error_2048 (IZR dim2 - 0.5 - 1e-4)
                ltac:(apply Rabs_def1; lra)) as Eh2.
  pose proof (float32_error_2048 (IZR dim3 - 0.5 - 1e-4)
                ltac:(apply Rabs_def1; lra)) as Eh3.
  fold l in El. fold h1 in Eh1. fold h2 in Eh2. fold h3 in Eh3.
  pose proof (scaled_error g (h1 - l - (IZR dim1 - 2 * 1e-4)) (/ 8192)
                ltac:(lra)) as S1.
  pose proof (scaled_error h (h2 - l - (IZR dim2 - 2 * 1e-4)) (/ 8192)
                ltac:(lra)) as S2.
  pose proof (scaled_error i (h3 - l - (IZR dim3 - 2 * 1e-4)) (/ 8192)
                ltac:(lra)) as S3.
  apply Rabs_le. lra.
Qed.

Lemma main_bounds_height_witness :
  exists lo hi,
    main_bounds 256 256 180 scale2_shift_z = Ok (ScalarBounds lo hi) /\
    Rabs (hi - lo
          - (Rabs 0 * (256 - 2 * 1e-4) + Rabs 0 * (256 - 2 * 1e-4)
             + Rabs 2 * (180 - 2 * 1e-4)))
    <= (Rabs 0 + Rabs 0 + Rabs 2) / 8192.
Proof.
  destruct (main_bounds_height 256 256 180 scale2_shift_z)
    as (lo & hi & Hb & _ & Herr); try lia.
  exists lo, hi. split; [exact Hb | ].
  apply Herr; lia.
Defined.

(** X26.  On a grid of 2049 or more voxels along every axis (and fewer than
    [2 ^ 23]), an offset between 0 and the default [1e-4] does not reach the
    high corners: they are stored in single precision, where [n - 0.5 -
    offset] and [n - offset] round back to [n - 0.5] and [n].  So
    [boundary = "high"] returns what [boundary = None] returns, and
    [boundary = "both"] what [boundary = "low"] returns. *)
Theorem axisBounds_high_offset_lost (nx ny nz : Z) xform axes origin offset :
  0 <= offset <= 1e-4 ->
  (2049 <= nx < 8388608)%Z -> (2049 <= ny < 8388608)%Z ->
  (2049 <= nz < 8388608)%Z ->
  axisBounds (nx, ny, nz) xform axes origin (Some "high"%string) offset
  = axisBounds (nx, ny, nz) xform axes origin None offset /\
  axisBounds (nx, ny, nz) xform axes origin (Some "both"%string) offset
  = axisBounds (nx, ny, nz) xform axes origin (Some "low"%string) offset.
Proof.
  intros Hoff Hx Hy Hz.
  pose proof (origin_check origin) as Ho.
  destruct (_ || _)%bool eqn:Eo in Ho.
  - assert (Hr : recognised_origin origin) by tauto.
    rewrite !axisBounds_recognised
      by (try exact Hr; unfold recognised_boundary; auto).
    change (boundary_in (Some "high"%string) ["low"; "both"]%string)
      with false.
    change (boundary_in (Some "high"%string) ["high"; "both"]%string)
      with true.
    change (boundary_in (Some "both"%string) ["low"; "both"]%string)
      with true.
    change (boundary_in (Some "both"%string) ["high"; "both"]%string)
      with true.
    change (boundary_in (Some "low"%string) ["low"; "both"]%string)
      with true.
    change (boundary_in (Some "low"%string) ["high"; "both"]%string)
      with false.
    change (boundary_in None ["low"; "both"]%string) with false.
    change (boundary_in None ["high"; "both"]%string) with false.
    unfold bounds_of_corners.
    rewrite !stored_high_absorbed by assumption. split; reflexivity.
  - unfold axisBounds. cbv zeta. rewrite Eo. split; reflexivity.
Qed.

Lemma axisBounds_high_offset_lost_witness :
  axisBounds (4096, 4096, 4096)%Z eye4 AxNone "centre"%string
    (Some "high"%string) 1e-4
  = axisBounds (4096, 4096, 4096)%Z eye4 AxNone "centre"%string None 1e-4.
Proof.
  apply (axisBounds_high_offset_lost 4096 4096 4096 eye4 AxNone
           "centre"%string 1e-4); try lia; lra.
Defined.

End MoreAxisBoundsOrder.

(** * Further properties of [_fillPoints] and [transform] *)

Section MorePoints.

Lemma assign_column_rows newp p j i :
  assign_column newp p j i
  = map (fun rows : list R * list R =>
           assign_one (fst rows) j (nth i (snd rows) 0)) (combine newp p).
Proof.
  unfold assign_column. apply map_ext. intros [newrow prow]. reflexivity.
Qed.

Lemma combine_map_l {A B C : Type} (f : A * B -> C) (l : list A)
    (l' : list B) :
  List.length l = List.length l' ->
  combine (map f (combine l l')) l'
  = map (fun ab => (f ab, snd ab)) (combine l l').
Proof.
  revert l'. induction l as [ | a l IH]; intros [ | b l'] H;
    try discriminate H; [reflexivity | ].
  cbn [combine map]. f_equal. apply IH. injection H as H. exact H.
Qed.

(** The loop of [_fillPoints], row by row. *)
Lemma fill_loop_rows axes p : forall i newp js,
  List.length newp = List.length p ->
  mapM (norm_index 3) axes = Ok js ->
  fill_loop axes i newp p
  = Ok (map (fun rows : list R * list R =>
               placed_row js i (snd rows) (fst rows)) (combine newp p)).
Proof.
  induction axes as [ | ax axes IH]; intros i newp js Hlen Hjs.
  - injection Hjs as <-. cbn [fill_loop placed_row]. f_equal.
    clear - Hlen. revert p Hlen.
    induction newp as [ | r newp IHn]; intros [ | q p] H;
      try discriminate H; [reflexivity | ].
    cbn [combine map fst]. f_equal. apply IHn. injection H as H. exact H.
  - cbn [mapM] in Hjs. cbn [fill_loop].
    destruct (norm_index 3 ax) as [j | e]; cbn [bind] in *;
      [ | discriminate Hjs].
    destruct (mapM (norm_index 3) axes) as [js' | e]; cbn [bind] in Hjs;
      [ | discriminate Hjs].
    injection Hjs as <-.
    rewrite (IH (S i) (assign_column newp p j i) js')
      by (try reflexivity; rewrite assign_column_rows, length_map,
            length_combine, Hlen; apply Nat.min_id).
    rewrite assign_column_rows, combine_map_l by exact Hlen.
    rewrite map_map. reflexivity.
Qed.

Lemma fill_loop_error axes p : forall i newp,
  mapM (norm_index 3) axes = Raise IndexError ->
  fill_loop axes i newp p = Raise IndexError.
Proof.
  induction axes as [ | ax axes IH]; intros i newp H; [discriminate H | ].
  cbn [mapM] in H. cbn [fill_loop].
  destruct (norm_index 3 ax) as [j | e]; cbn [bind] in *;
    [ | injection H as ->; reflexivity].
  apply IH.
  destruct (mapM (norm_index 3) axes); cbn [bind] in H;
    [discriminate H | exact H].
Qed.

Lemma combine_zeros (rows : list (list R)) :
  combine (map (fun _ : list R => [0; 0; 0]) rows) rows
  = map (fun r => ([0; 0; 0], r)) rows.
Proof.
  induction rows as [ | r rows IH]; [reflexivity | ].
  cbn [map combine]. f_equal. exact IH.
Qed.

(** [_fillPoints] with axes given, in one piece. *)
Lemma fillPoints_given p axes :
  axes <> AxNone ->
  _fillPoints p axes
  = if negb (List.length (given_axes axes) =? point_columns p)%nat
    then Raise (ValueError
           "Points array shape does not match specified number of axes")
    else
      match mapM (norm_index 3) (given_axes axes) with
      | Ok js =>
          Ok (Arr2 3 (map (fun prow => placed_row js 0 prow [0; 0; 0])
                        (point_rows p)))
      | Raise e => Raise IndexError
      end.
Proof.
  intros Hax.
  assert (E : _fillPoints p axes
              = if negb (List.length (given_axes axes)
                         =? point_columns p)%nat
                then Raise (ValueError
                  "Points array shape does not match specified number of axes")
                else
                  newp <- fill_loop (given_axes axes) 0
                            (map (fun _ => [0; 0; 0]) (point_rows p))
                            (point_rows p) ;;
                  Ok (Arr2 3 newp)).
  { destruct axes as [ | ax | l]; [contradiction | | ];
      destruct p as [x | l' | c rows]; reflexivity. }
  rewrite E. destruct (negb _); [reflexivity | ].
  destruct (mapM_norm_index_outcome (given_axes axes))
    as [[_ Hjs] | [_ Hjs]]; rewrite Hjs.
  - rewrite (fill_loop_rows _ _ _ _ _ (length_map _ _) Hjs).
    cbn [bind]. rewrite combine_zeros, map_map. reflexivity.
  - rewrite (fill_loop_error _ _ _ _ Hjs). reflexivity.
Qed.

Lemma assign_one_length row j x :
  (j < List.length row)%nat ->
  List.length (assign_one row j x) = List.length row.
Proof.
  intros Hj. unfold assign_one.
  rewrite length_app, length_firstn. cbn [List.length].
  rewrite length_skipn. lia.
Qed.

Lemma nth_assign_one row j x k :
  (j < List.length row)%nat ->
  nth k (assign_one row j x) 0 = if (k =? j)%nat then x else nth k row 0.
Proof.
  intros Hj. unfold assign_one.
  assert (Hf : List.length (firstn j row) = j)
    by (rewrite length_firstn; lia).
  destruct (Nat.eqb_spec k j) as [-> | Hk].
  - rewrite app_nth2 by lia. rewrite Hf, Nat.sub_diag. reflexivity.
  - destruct (Nat.lt_ge_cases k j) as [Hlt | Hge].
    + rewrite app_nth1 by lia.
      rewrite <- (firstn_skipn j row) at 2.
      rewrite app_nth1 by lia. reflexivity.
    + rewrite app_nth2 by lia. rewrite Hf.
      destruct (k - j)%nat as [ | d] eqn:Ed; [lia | ].
      cbn [nth]. rewrite nth_skipn. f_equal. lia.
Qed.

Lemma placed_row_length js prow : forall i row,
  Forall (fun j => (j < List.length row)%nat) js ->
  List.length (placed_row js i prow row) = List.length row.
Proof.
  induction js as [ | j js IH]; intros i row Hjs; [reflexivity | ].
  inversion Hjs as [ | ? ? Hj Hjs']; subst. cbn [placed_row].
  rewrite IH; rewrite assign_one_length by exact Hj; [reflexivity | ].
  exact Hjs'.
Qed.

Lemma placed_row_other js prow k : forall i row,
  Forall (fun j => (j < List.length row)%nat) js -> ~ In k js ->
  nth k (placed_row js i prow row) 0 = nth k row 0.
Proof.
  induction js as [ | j js IH]; intros i row Hjs Hk; [reflexivity | ].
  inversion Hjs as [ | ? ? Hj Hjs']; subst. cbn [placed_row].
  rewrite IH.
  - rewrite nth_assign_one by exact Hj.
    destruct (Nat.eqb_spec k j) as [-> | _]; [ | reflexivity].
    exfalso. apply Hk. left. reflexivity.
  - rewrite assign_one_length by exact Hj. exact Hjs'.
  - intros H. apply Hk. right. exact H.
Qed.

Lemma placed_row_named js prow : forall i row n,
  Forall (fun j => (j < List.length row)%nat) js -> NoDup js ->
  (n < List.length js)%nat ->
  nth (nth n js 0%nat) (placed_row js i prow row) 0 = nth (i + n) prow 0.
Proof.
  induction js as [ | j js IH]; intros i row n Hjs Hnd Hn;
    [cbn in Hn; lia | ].
  inversion Hjs as [ | ? ? Hj Hjs']; subst.
  inversion Hnd as [ | ? ? Hnotin Hnd']; subst.
  cbn [placed_row]. destruct n as [ | n]; cbn [nth].
  - rewrite placed_row_other;
      [ | rewrite assign_one_length by exact Hj; exact Hjs' | exact Hnotin].
    rewrite nth_assign_one, Nat.eqb_refl by exact Hj.
    rewrite Nat.add_0_r. reflexivity.
  - rewrite IH; [ f_equal; lia | | exact Hnd' | cbn in Hn; lia ].
    rewrite assign_one_length by exact Hj. exact Hjs'.
Qed.
End MorePoints.

Section MorePointsResults.

Lemma placed_rows_shape js (rows : list (list R)) :
  Forall (fun j => (j < 3)%nat) js ->
  Forall (fun r : list R => List.length r = 3%nat)
    (map (fun prow => placed_row js 0 prow [0; 0; 0]) rows).
Proof.
  intros Hjs. apply Forall_map, Forall_forall. intros prow _.
  rewrite placed_row_length; [reflexivity | exact Hjs].
Qed.

(** X20.  With [axes] given and points of at most two dimensions,
    [_fillPoints] raises [ValueError] exactly when the
    number of axes differs from the number of columns of the points,
    [IndexError] exactly when the numbers agree and an axis is outside
    [-3 .. 2], and otherwise returns an array with the rows of the points in
    number and three columns. *)
Theorem fillPoints_outcome p axes :
  axes <> AxNone ->
  (is_value_error (_fillPoints p axes)
   <-> List.length (given_axes axes) <> point_columns p) /\
  (_fillPoints p axes = Raise IndexError
   <-> List.length (given_axes axes) = point_columns p /\
       ~ Forall axis_in_range (given_axes axes)) /\
  ((exists rows,
      _fillPoints p axes = Ok (Arr2 3 rows) /\
      List.length rows = List.length (point_rows p) /\
      Forall (fun r : list R => List.length r = 3%nat) rows)
   <-> List.length (given_axes axes) = point_columns p /\
       Forall axis_in_range (given_axes axes)).
Proof.
  intros Hax. rewrite (fillPoints_given p axes Hax). unfold is_value_error.
  destruct (Nat.eqb_spec (List.length (given_axes axes)) (point_columns p))
    as [E | E]; cbn [negb].
  - destruct (mapM_norm_index_outcome (given_axes axes))
      as [[Hl Hjs] | [Hl Hjs]]; rewrite Hjs.
    + split; [ | split].
      * split; [intros [m H]; discriminate H | contradiction].
      * split; [discriminate | tauto].
      * split; [tauto | intros _].
        eexists. split; [reflexivity | split].
        -- apply length_map.
        -- apply placed_rows_shape.
           apply (proj2 (mapM_norm_index_axis_numbers _ Hl)).
    + split; [ | split].
      * split; [intros [m H]; discriminate H | contradiction].
      * tauto.
      * split; [intros (rows & H & _); discriminate H | tauto].
  - split; [ | split].
    + split; [intros _; exact E | intros _; eexists; reflexivity].
    + split; [discriminate | tauto].
    + split; [intros (rows & H & _); discriminate H | tauto].
Qed.

(** X21.  With distinct axes, the row [_fillPoints] returns for a row of the
    points holds the value of column [n] at the [n]-th named axis and zero
    at the axes that are not named. *)
Theorem fillPoints_places_values p axes :
  axes <> AxNone ->
  List.length (given_axes axes) = point_columns p ->
  Forall axis_in_range (given_axes axes) ->
  NoDup (map axis_number (given_axes axes)) ->
  exists rows,
    _fillPoints p axes = Ok (Arr2 3 rows) /\
    List.length rows = List.length (point_rows p) /\
    forall r, (r < List.length rows)%nat ->
      (forall n, (n < List.length (given_axes axes))%nat ->
         nth (axis_number (nth n (given_axes axes) 0%Z)) (nth r rows []) 0
         = nth n (nth r (point_rows p) []) 0) /\
      (forall k, ~ In k (map axis_number (given_axes axes)) ->
         nth k (nth r rows []) 0 = 0).
Proof.
  intros Hax Hlen Hrange Hnd. rewrite (fillPoints_given p axes Hax).
  rewrite Hlen, Nat.eqb_refl. cbn [negb].
  destruct (mapM_norm_index_axis_numbers _ Hrange) as [-> Hlt].
  eexists. split; [reflexivity | split; [apply length_map | ]].
  intros r Hr. rewrite length_map in Hr.
  rewrite (nth_indep _ [] (placed_row (map axis_number (given_axes axes)) 0
                             [] [0; 0; 0])) by (rewrite length_map; exact Hr).
  rewrite (map_nth (fun prow => placed_row _ 0 prow [0; 0; 0])).
  split.
  - intros n Hn.
    change (axis_number (nth n (given_axes axes) 0%Z))
      with ((fun ax => axis_number ax) (nth n (given_axes axes) 0%Z)).
    rewrite <- (map_nth axis_number).
    change (axis_number 0%Z) with 0%nat.
    rewrite placed_row_named;
      [reflexivity | exact Hlt | exact Hnd
      | rewrite length_map, Hlen; exact Hn].
  - intros k Hk. rewrite placed_row_other; [ | exact Hlt | exact Hk].
    destruct k as [ | [ | [ | [ | k]]]]; reflexivity.
Qed.

Lemma fillPoints_places_values_witness :
  exists rows,
    _fillPoints (Arr2 2 [[1; 2]; [3; 4]]) (AxList [-1; 0]%Z)
      = Ok (Arr2 3 rows) /\
    List.length rows = 2%nat.
Proof.
  destruct (fillPoints_places_values (Arr2 2 [[1; 2]; [3; 4]])
              (AxList [-1; 0]%Z)) as (rows & Hrows & Hlen & _).
  - discriminate.
  - reflexivity.
  - repeat constructor; unfold axis_in_range; lia.
  - cbn. repeat constructor; cbn; intuition lia.
  - exists rows. split; [exact Hrows | exact Hlen].
Defined.

Lemma fillPoints_outcome_witness :
  is_value_error (_fillPoints (Arr2 2 [[1; 2]; [3; 4]]) (AxInt 0)).
Proof.
  apply (fillPoints_outcome (Arr2 2 [[1; 2]; [3; 4]]) (AxInt 0)).
  - discriminate.
  - cbn. lia.
Defined.

End MorePointsResults.

Section TransformAlongAxis.

(** X22.  [transform] of a 1-D array along one axis multiplies each value by
    the diagonal entry of that axis and, unless [vector] is set, adds the
    translation of that axis; an array of one value gives a scalar. *)
Theorem transform_along_axis l xform ax vector :
  axis_in_range ax ->
  transform (Arr1 l) xform (AxInt ax) vector
  = Ok (squeeze1
          (map (fun x =>
                  at3 (linear_part xform) (axis_number ax) (axis_number ax)
                    * x
                  + (if vector then 0
                     else get3 (translation_part xform) (axis_number ax)))
               l)).
Proof.
  intros Hax. destruct (norm_index_axis_number ax Hax) as [Hj Hlt].
  unfold transform. rewrite fillPoints_given by discriminate.
  cbn [given_axes point_columns point_rows List.length Nat.eqb negb mapM].
  rewrite Hj. cbn [bind].
  change (3 =? 3)%nat with true. cbn [negb bind].
  match goal with
  | |- match ?t with _ => _ end = _ => set (T := t)
  end.
  assert (ET : T = map (fun x =>
                 at3 (linear_part xform) (axis_number ax) (axis_number ax) * x
                 + (if vector then 0
                    else get3 (translation_part xform) (axis_number ax))) l).
  { subst T. rewrite !map_map. apply map_ext. intros x.
    destruct xform as [[a b c t0] [d e f t1] [g h i t2] q].
    destruct (axis_number ax) as [ | [ | [ | j]]]; [ | | | lia];
      destruct vector; cbn [placed_row assign_one firstn skipn app nth];
      unfold_points; unfold_arrays; ring. }
  rewrite ET. clear ET T.
  match goal with
  | |- match ?t with _ => _ end = _ => destruct t as [ | x [ | y r]]
  end; reflexivity.
Qed.

Lemma transform_along_axis_witness :
  transform (Arr1 [1; 5]) scale2_shift_z (AxInt (-1)) false
  = Ok (Arr1 [2 * 1 + 1; 2 * 5 + 1]).
Proof.
  rewrite transform_along_axis by (unfold axis_in_range; lia).
  reflexivity.
Defined.

End TransformAlongAxis.

(** * Properties of [readlines] *)

Section ReadLinesProperties.

Import ReadLines.

Variable py3 : bool.

Lemma lstrip_chars_suffix l :
  exists s, l = s ++ lstrip_chars py3 l /\
            Forall (fun c => is_space py3 c = true) s.
Proof.
  induction l as [ | c l (s & E & Hs)];
    [exists []; split; [reflexivity | constructor] | ].
  cbn [lstrip_chars]. destruct (is_space py3 c) eqn:Ec.
  - exists (c :: s). split; [cbn [app]; f_equal; exact E | ].
    constructor; assumption.
  - exists []. split; [reflexivity | constructor].
Qed.

Lemma lstrip_chars_head l c l' :
  lstrip_chars py3 l = c :: l' -> is_space py3 c = false.
Proof.
  induction l as [ | d l IH]; cbn [lstrip_chars]; [discriminate | ].
  destruct (is_space py3 d) eqn:Ed; [exact IH | ].
  intros H. injection H as <- _. exact Ed.
Qed.

Lemma lstrip_chars_fixed l :
  (forall c l', l = c :: l' -> is_space py3 c = false) ->
  lstrip_chars py3 l = l.
Proof.
  destruct l as [ | c l]; [reflexivity | intros H].
  cbn [lstrip_chars]. rewrite (H c l eq_refl). reflexivity.
Qed.

Lemma strip_chars_last l l' c :
  strip_chars py3 l = l' ++ [c] -> is_space py3 c = false.
Proof.
  unfold strip_chars. intros H.
  apply (f_equal (@rev ascii)) in H.
  rewrite rev_involutive, rev_app_distr in H. cbn [rev app] in H.
  exact (lstrip_chars_head _ _ _ H).
Qed.

Lemma strip_chars_head l c l' :
  strip_chars py3 l = c :: l' -> is_space py3 c = false.
Proof.
  unfold strip_chars. intros H.
  destruct (lstrip_chars_suffix (rev (lstrip_chars py3 l))) as (s & E & _).
  apply (f_equal (@rev ascii)) in E.
  rewrite rev_involutive, rev_app_distr, H in E.
  cbn [app] in E. exact (lstrip_chars_head _ _ _ E).
Qed.

Lemma strip_chars_idempotent l :
  strip_chars py3 (strip_chars py3 l) = strip_chars py3 l.
Proof.
  unfold strip_chars at 1.
  rewrite (lstrip_chars_fixed (strip_chars py3 l))
    by (intros c l'; apply strip_chars_head).
  unfold strip_chars at 1. rewrite rev_involutive.
  rewrite (lstrip_chars_fixed (lstrip_chars py3 (rev (lstrip_chars py3 l))))
    by (intros c l'; apply lstrip_chars_head).
  reflexivity.
Qed.

Lemma strip_idempotent l : strip py3 (strip py3 l) = strip py3 l.
Proof.
  unfold strip. rewrite list_ascii_of_string_of_list_ascii.
  rewrite strip_chars_idempotent. reflexivity.
Qed.

Lemma strip_clean l :
  strip py3 l <> EmptyString -> startswith_hash (strip py3 l) = false ->
  clean_line py3 (strip py3 l).
Proof.
  intros Hne Hh. unfold clean_line.
  split; [exact Hne | split; [exact Hh | split]].
  - intros c l' E. unfold strip in E.
    apply (f_equal list_ascii_of_string) in E.
    rewrite list_ascii_of_string_of_list_ascii in E. cbn in E.
    exact (strip_chars_head _ _ _ E).
  - intros l' c E. unfold strip in E.
    rewrite list_ascii_of_string_of_list_ascii in E.
    exact (strip_chars_last _ _ _ E).
Qed.

Lemma clean_line_strip l : clean_line py3 l -> strip py3 l = l.
Proof.
  intros (_ & _ & Hhead & Hlast). unfold strip, strip_chars.
  rewrite (lstrip_chars_fixed (list_ascii_of_string l)).
  - rewrite lstrip_chars_fixed.
    + rewrite rev_involutive. apply string_of_list_ascii_of_string.
    + intros c l' E. apply (f_equal (@rev ascii)) in E.
      rewrite rev_involutive in E. cbn [rev] in E.
      exact (Hlast _ _ E).
  - intros c l' E. apply (Hhead c (string_of_list_ascii l')).
    rewrite <- (string_of_list_ascii_of_string l), E. reflexivity.
Qed.

Lemma readlines_in lines x :
  In x (readlines py3 lines)
  <-> exists l, In l lines /\ x = strip py3 l /\
                x <> EmptyString /\ startswith_hash x = false.
Proof.
  unfold readlines. rewrite !filter_In, in_map_iff.
  rewrite !negb_true_iff, String.eqb_neq. split.
  - intros [[(l & <- & Hl) Hh] Hne]. exists l. auto.
  - intros (l & Hl & -> & Hne & Hh). split; [split | ]; eauto.
Qed.

Lemma filter_keeps_all {A : Type} (f : A -> bool) (l : list A) :
  (forall a, In a l -> f a = true) -> filter f l = l.
Proof.
  induction l as [ | a l IH]; intros H; [reflexivity | ].
  cbn [filter]. rewrite (H a (or_introl eq_refl)). f_equal.
  apply IH. intros b Hb. apply H. right. exact Hb.
Qed.

Lemma readlines_clean lines x :
  In x (readlines py3 lines) -> clean_line py3 x.
Proof.
  rewrite readlines_in. intros (l & _ & -> & Hne & Hh).
  apply strip_clean; assumption.
Qed.

Lemma readlines_of_clean lines :
  (forall x, In x lines -> clean_line py3 x) -> readlines py3 lines = lines.
Proof.
  intros H. unfold readlines.
  replace (map (strip py3) lines) with lines.
  - rewrite (filter_keeps_all (fun l => negb (startswith_hash l)))
      by (intros a Ha; destruct (H a Ha) as (_ & -> & _); reflexivity).
    apply filter_keeps_all. intros a Ha.
    destruct (H a Ha) as (Hne & _).
    apply negb_true_iff, String.eqb_neq. exact Hne.
  - rewrite <- (map_id lines) at 1. apply map_ext_in.
    intros a Ha. symmetry. apply clean_line_strip, H, Ha.
Qed.

End ReadLinesProperties.

(** X23.  On the lines of an ASCII file, [readlines] returns exactly the
    stripped lines that are not empty and do not start with [#]; none of
    them begins or ends with white space. *)
Theorem readlines_result py3 lines :
  forallb ascii_line lines = true ->
  forall x,
    In x (ReadLines.readlines py3 lines)
    <-> exists l, In l lines /\ x = ReadLines.strip py3 l /\
                  clean_line py3 x.
Proof.
  intros _ x. rewrite readlines_in. split.
  - intros (l & Hl & E & Hne & Hh). exists l.
    split; [exact Hl | split; [exact E | ]].
    subst x. apply strip_clean; assumption.
  - intros (l & Hl & E & Hne & Hh & _). exists l. auto.
Qed.

(** X24.  [readlines] leaves what it has returned unchanged when it is given
    its own result as lines. *)
Theorem readlines_idempotent py3 lines :
  forallb ascii_line lines = true ->
  ReadLines.readlines py3 (ReadLines.readlines py3 lines)
  = ReadLines.readlines py3 lines.
Proof.
  intros _. apply readlines_of_clean. intros x. apply readlines_clean.
Qed.

Lemma readlines_result_witness :
  exists l,
    In l ["# 4x4 affine"; "  1 0 0 0  "; ""; "   # indented"]%string /\
    "1 0 0 0"%string = ReadLines.strip true l /\
    clean_line true "1 0 0 0".
Proof.
  apply (proj1 (readlines_result true
                  ["# 4x4 affine"; "  1 0 0 0  "; ""; "   # indented"]%string
                  eq_refl "1 0 0 0"%string)).
  left. reflexivity.
Defined.

Lemma readlines_idempotent_witness :
  ReadLines.readlines false
    (ReadLines.readlines false ["# c"; " 1 2 "; "  "]%string)
  = ReadLines.readlines false ["# c"; " 1 2 "; "  "]%string.
Proof.
  exact (readlines_idempotent false ["# c"; " 1 2 "; "  "]%string eq_refl).
Defined.

(** * From angles in degrees to a matrix and back *)

Section MainsRoundTrip.

Import Mains.

Lemma degrees_radians d : degrees (radians d) = d.
Proof.
  unfold degrees, radians. pose proof PI_RGT_0. field. lra.
Qed.

Lemma sin_cubic_lower a : 0 <= a -> a <= PI -> a - a ^ 3 / 6 <= sin a.
Proof.
  intros H0 H1. destruct (sin_bound a 0 H0 H1) as [H _].
  unfold sin_approx, sin_term in H. cbn in H.
  eapply Rle_trans; [ | exact H]. apply Req_le. field.
Qed.

Lemma sin_one_degree : 1e-2 < sin (PI / 180).
Proof.
  pose proof PI2_3_2 as Hlo. pose proof PI_4 as Hhi.
  assert (H : PI / 180 - (PI / 180) ^ 3 / 6 <= sin (PI / 180))
    by (apply sin_cubic_lower; lra).
  assert (Hc : (PI / 180) ^ 3 <= (4 / 180) ^ 3).
  { apply pow_incr. lra. }
  lra.
Qed.

Lemma cos_whole_degrees (d : Z) :
  (-90 < d < 90)%Z -> 1e-8 < cos (radians (IZR d)).
Proof.
  intros Hd. pose proof PI_RGT_0 as Hpi. pose proof sin_one_degree as Hs.
  assert (Hb : -89 <= IZR d <= 89) by (split; apply IZR_le; lia).
  assert (Hcos : cos (89 * PI / 180) = sin (PI / 180)).
  { rewrite <- cos_shift. f_equal. field. }
  unfold radians.
  destruct (Rle_dec 0 (IZR d)) as [Hpos | Hneg].
  - assert (cos (89 * PI / 180) <= cos (IZR d * PI / 180))
      by (apply cos_decr_1; nra).
    lra.
  - rewrite <- cos_neg.
    assert (cos (89 * PI / 180) <= cos (- (IZR d * PI / 180)))
      by (apply cos_decr_1; nra).
    lra.
Qed.

(** X25.  For whole degrees [xrot] and [zrot] in [(-180, 180]] and [yrot]
    strictly between [-90] and [90], the three numbers [main] of
    [decompose.py] computes from the matrix [main] of
    [axisAnglesToRotMatToAffine.py] builds are these degrees. *)
Theorem main_degrees_of_main_affine (xrot yrot zrot : Z) :
  (-180 < xrot <= 180)%Z -> (-90 < yrot < 90)%Z -> (-180 < zrot <= 180)%Z ->
  main_degrees (main_affine xrot yrot zrot)
  = Some (Vec3 (IZR xrot) (IZR yrot) (IZR zrot)).
Proof.
  intros Hx Hy Hz. pose proof PI_RGT_0 as Hpi.
  pose proof (cos_whole_degrees yrot Hy) as Hcos.
  assert (Bx : -180 < IZR xrot <= 180)
    by (split; [apply IZR_lt | apply IZR_le]; lia).
  assert (By : -90 < IZR yrot < 90) by (split; apply IZR_lt; lia).
  assert (Bz : -180 < IZR zrot <= 180)
    by (split; [apply IZR_lt | apply IZR_le]; lia).
  unfold main_degrees, main_affine. cbv zeta.
  change (rotMatToAffine
            (axisAnglesToRotMat (radians (IZR xrot)) (radians (IZR yrot))
               (radians (IZR zrot))) None)
    with (compose (Vec3 1 1 1) (Vec3 0 0 0)
            (AxisAngles (Vec3 (radians (IZR xrot)) (radians (IZR yrot))
                           (radians (IZR zrot)))) None).
  rewrite decompose_compose_identity;
    try lra; try (unfold radians; split; nra).
  cbn [snd get3 v3_0 v3_1 v3_2]. rewrite !degrees_radians. reflexivity.
Qed.

Lemma main_degrees_of_main_affine_witness :
  main_degrees (main_affine 30 (-45) 180) = Some (Vec3 30 (-45) 180).
Proof.
  apply (main_degrees_of_main_affine 30 (-45) 180); lia.
Defined.

End MainsRoundTrip.
